(** * Knowledge-graph engine: a shallow embedding of [graph_engine.py] and
    [persistence.py], and the properties of ingestion, linking, lineage
    search, conflict detection and deletion.

    The engine keeps three stores: the LanceDB table of unit rows (the vector
    index), the NetworkX [DiGraph] held in memory, and the list of relation
    records of the [PersistenceManager].  Every method of [KnowledgeGraph]
    becomes a function on a record holding the three stores; a method that
    can raise returns a [result].  What the engine delegates (the embedding
    provider, the nearest-neighbour search of the index, the formatting of a
    float) is a section variable. *)

From Stdlib Require Import String List Bool Arith Lia.
From Stdlib Require Import Floats.PrimFloat.
Import ListNotations.

Local Open Scope string_scope.
Local Open Scope list_scope.

(* 0.85 is read as the nearest binary64 value, as Python reads it. *)
Set Warnings "-inexact-float".

(** ** Exceptions and results *)

(** The exceptions that cross the engine boundary: the [ValueError]s the
    engine raises itself, [networkx.NodeNotFound] raised by
    [nx.shortest_path], and a failure of the embedding provider. *)
Inductive exn : Type :=
| ValueError (msg : string)
| NodeNotFound (node : string)
| UpstreamFailure.

Inductive result (A : Type) : Type :=
| Ok (a : A)
| Raise (e : exn).

Arguments Ok {A} a.
Arguments Raise {A} e.

Definition bind {A B : Type} (r : result A) (k : A -> result B) : result B :=
  match r with
  | Ok a => k a
  | Raise e => Raise e
  end.

Notation "'do' x <- r ; k" := (bind r (fun x => k))
  (at level 10, x name, r at level 100, k at level 200).

(** ** Data model *)

(** [AtomicUnit] as the engine builds it.  [created_at] is filled by a
    default of the model class on every construction and is read only when a
    row is written, so it appears in [Row] and not here. *)
Record AtomicUnit : Type := mkUnit {
  unit_id : string;
  content : string;
  source_doi : option string;
  confidence : float;
  vector : list float
}.

(** One record of the ["units"] table ([_init_table]): [source_doi] is a
    plain string column. *)
Record Row : Type := mkRow {
  row_id : string;
  row_content : string;
  row_source_doi : string;
  row_confidence : float;
  row_created_at : string;
  row_vector : list float
}.

Record Relation : Type := mkRelation {
  source_id : string;
  target_id : string;
  rel_type : string;
  reasoning : string
}.

Record LineageStep : Type := mkStep {
  step_unit : AtomicUnit;
  relation_to_next : option Relation
}.

Record ConflictResult : Type := mkConflict {
  conflicting_unit : AtomicUnit;
  conflict_relation : option Relation;
  explanation : string
}.

(** ** The NetworkX directed graph *)

Record EdgeData : Type := mkEdge {
  edge_type : string;
  edge_reasoning : string
}.

(** A [DiGraph]: nodes in insertion order with their optional [content]
    attribute, and at most one edge per ordered pair of nodes. *)
Record DiGraph : Type := mkGraph {
  nodes : list (string * option string);
  edges : list (string * string * EdgeData)
}.

Definition empty_graph : DiGraph := mkGraph [] [].

Definition has_node (g : DiGraph) (n : string) : bool :=
  existsb (fun x => String.eqb (fst x) n) (nodes g).

Definition is_edge (u v : string) (e : string * string * EdgeData) : bool :=
  String.eqb (fst (fst e)) u && String.eqb (snd (fst e)) v.

Definition has_edge (g : DiGraph) (u v : string) : bool :=
  existsb (is_edge u v) (edges g).

(** [G.edges[u, v]] *)
Definition edge_data (g : DiGraph) (u v : string) : option EdgeData :=
  option_map snd (find (is_edge u v) (edges g)).

(** [G.add_node(n, content=c)]: a new node is appended, an old one has its
    attribute overwritten. *)
Definition add_node (g : DiGraph) (n : string) (c : string) : DiGraph :=
  if has_node g n
  then mkGraph
         (map (fun x => if String.eqb (fst x) n then (n, Some c) else x) (nodes g))
         (edges g)
  else mkGraph (nodes g ++ [(n, Some c)]) (edges g).

(** A node that [add_edge] has to create carries no attribute. *)
Definition touch_node (ns : list (string * option string)) (n : string)
  : list (string * option string) :=
  if existsb (fun x => String.eqb (fst x) n) ns then ns else ns ++ [(n, None)].

(** [G.add_edge(u, v, type=t, reasoning=r)]: both endpoints become nodes; an
    edge already stored for [(u, v)] has its attributes overwritten. *)
Definition add_edge (g : DiGraph) (u v : string) (d : EdgeData) : DiGraph :=
  let ns := touch_node (touch_node (nodes g) u) v in
  if has_edge g u v
  then mkGraph ns (map (fun e => if is_edge u v e then (u, v, d) else e) (edges g))
  else mkGraph ns (edges g ++ [(u, v, d)]).

(** [G.remove_node(n)]: the node goes, with every edge into or out of it. *)
Definition remove_node (g : DiGraph) (n : string) : DiGraph :=
  mkGraph
    (filter (fun x => negb (String.eqb (fst x) n)) (nodes g))
    (filter (fun e => negb (String.eqb (fst (fst e)) n)
                      && negb (String.eqb (snd (fst e)) n)) (edges g)).

(** *** The undirected view and [nx.shortest_path]

    [G.to_undirected()] keeps the nodes and forgets the direction of every
    edge.  [nx.shortest_path(H, s, t)] without weights is a breadth-first
    search: it returns one path with the fewest nodes, raises
    [NetworkXNoPath] when [t] cannot be reached and [NodeNotFound] when an
    endpoint is not a node of [H].  Which of several equally short paths comes
    back depends on the adjacency order inside NetworkX; the search below
    visits neighbours in the order of the edge list. *)

(** Adjacency of the undirected view. *)
Definition adjacent (g : DiGraph) (u v : string) : bool :=
  has_edge g u v || has_edge g v u.

Fixpoint neighbors_in (es : list (string * string * EdgeData)) (v : string)
  : list string :=
  match es with
  | [] => []
  | (a, b, _) :: rest =>
      (if String.eqb a v then [b] else [])
        ++ (if String.eqb b v then [a] else [])
        ++ neighbors_in rest v
  end.

Definition neighbors (g : DiGraph) (v : string) : list string :=
  neighbors_in (edges g) v.

Definition mem (x : string) (l : list string) : bool :=
  existsb (String.eqb x) l.

(** Paths of the search are kept reversed: the head is the node reached.
    [extend visited p ws] prolongs [p] by every neighbour in [ws] not seen
    yet, and records them as seen. *)
Fixpoint extend (visited : list string) (p : list string) (ws : list string)
  : list (list string) * list string :=
  match ws with
  | [] => ([], visited)
  | w :: ws' =>
      if mem w visited then extend visited p ws'
      else let (ps, vis) := extend (w :: visited) p ws' in
           ((w :: p) :: ps, vis)
  end.

(** One layer of the search: every path of the current layer is extended. *)
Fixpoint expand (g : DiGraph) (visited : list string) (level : list (list string))
  : list (list string) * list string :=
  match level with
  | [] => ([], visited)
  | p :: rest =>
      let (ps1, v1) := extend visited p (neighbors g (hd "" p)) in
      let (ps2, v2) := expand g v1 rest in
      (ps1 ++ ps2, v2)
  end.

Definition reaches (t : string) (p : list string) : bool :=
  match p with
  | [] => false
  | v :: _ => String.eqb v t
  end.

Inductive sp_result : Type :=
| SpPath (p : list string)
| SpNoPath
| SpNodeNotFound (node : string).

Fixpoint bfs (fuel : nat) (g : DiGraph) (t : string)
  (visited : list string) (level : list (list string)) : sp_result :=
  match find (reaches t) level with
  | Some p => SpPath (rev p)
  | None =>
      match level, fuel with
      | [], _ => SpNoPath
      | _, 0 => SpNoPath
      | _, S fuel' =>
          let (level', visited') := expand g visited level in
          bfs fuel' g t visited' level'
      end
  end.

(** Every node the search can see: the source and the endpoints of edges. *)
Definition endpoints (g : DiGraph) : list string :=
  flat_map (fun e => [fst (fst e); snd (fst e)]) (edges g).

Definition shortest_path (g : DiGraph) (s t : string) : sp_result :=
  if negb (has_node g s) then SpNodeNotFound s
  else if negb (has_node g t) then SpNodeNotFound t
  else bfs (S (length (endpoints g))) g t [s] [[s]].

(** ** The relation store ([PersistenceManager])

    [_relations] is the list of stored relation records, oldest first. *)

Definition touches (uid : string) (r : Relation) : bool :=
  String.eqb (source_id r) uid || String.eqb (target_id r) uid.

Definition get_all_relations (rels : list Relation) : list Relation := rels.

Definition add_relation (rels : list Relation) (r : Relation) : list Relation :=
  rels ++ [r].

Definition get_relations_for_unit (rels : list Relation) (uid : string)
  : list Relation :=
  filter (touches uid) rels.

Definition relation_exists (rels : list Relation) (s t ty : string) : bool :=
  existsb (fun r => String.eqb (source_id r) s && String.eqb (target_id r) t
                    && String.eqb (rel_type r) ty) rels.

(** Returns the relations kept and the number deleted. *)
Definition delete_relations_for_unit (rels : list Relation) (uid : string)
  : list Relation * nat :=
  let original_count := length rels in
  let kept := filter (fun r => negb (String.eqb (source_id r) uid)
                               && negb (String.eqb (target_id r) uid)) rels in
  (kept, original_count - length kept).

(** ** The engine *)

Record KnowledgeGraph : Type := mkKG {
  table : list Row;
  graph : DiGraph;
  persistence : list Relation
}.

(** The report of [delete_unit]. *)
Record DeletionReport : Type := mkReport {
  deleted_unit_id : string;
  deleted_content : string;
  deleted_source : option string;
  deleted_relations_count : nat;
  connections_removed : nat
}.

(** Truth value of a Python string. *)
Definition nonempty (s : string) : bool :=
  match s with
  | EmptyString => false
  | _ => true
  end.

(** [AtomicUnit(id=row["id"], ..., source_doi=row["source_doi"] if
    row["source_doi"] else None, ...)] *)
Definition unit_of_row (row : Row) : AtomicUnit :=
  mkUnit (row_id row) (row_content row)
         (if nonempty (row_source_doi row) then Some (row_source_doi row) else None)
         (row_confidence row) (row_vector row).

(** [unit.source_doi or ""] *)
Definition stored_source (src : option string) : string :=
  match src with
  | Some s => if nonempty s then s else ""
  | None => ""
  end.

(** [table.search().where("id = ...").limit(1)]: the first row with that
    id, in insertion order. *)
Definition get_unit (kg : KnowledgeGraph) (uid : string) : option AtomicUnit :=
  match find (fun row => String.eqb (row_id row) uid) (table kg) with
  | None => None
  | Some row => Some (unit_of_row row)
  end.

(** [_load_graph_from_persistence]: one [add_edge] per stored relation. *)
Definition load_graph_from_persistence (rels : list Relation) (g : DiGraph)
  : DiGraph :=
  fold_left
    (fun g r => add_edge g (source_id r) (target_id r)
                  (mkEdge (rel_type r) (reasoning r)))
    (get_all_relations rels) g.

(** [__init__] on a data directory that already holds a table and a
    relations file: the graph starts empty and is rebuilt from the relations
    alone. *)
Definition reopen (kg : KnowledgeGraph) : KnowledgeGraph :=
  mkKG (table kg)
       (load_graph_from_persistence (persistence kg) empty_graph)
       (persistence kg).

Definition get_unit_connections (kg : KnowledgeGraph) (uid : string)
  : list Relation :=
  get_relations_for_unit (persistence kg) uid.

Section Engine.

(** The embedding provider: [None] when the call fails. *)
Variable embed : string -> option (list float).

(** The nearest-neighbour search of the vector index, cosine metric: the
    rows found, best first, each with its [_distance] when present. *)
Variable vector_search : list Row -> list float -> nat -> list (Row * option float).

(** [f"{score:.2f}"] *)
Variable format_score : float -> string.

(** [add_proposition].  [gen_id] and [created_at] are what the defaults of
    the model class produce for this unit. *)
Definition add_proposition (kg : KnowledgeGraph)
    (content : string) (source_doi : option string) (confidence : float)
    (uid : option string) (gen_id created_at : string)
  : result AtomicUnit * KnowledgeGraph :=
  match embed content with
  | None => (Raise UpstreamFailure, kg)
  | Some vector =>
      let id :=
        match uid with
        | Some u => if nonempty u then u else gen_id
        | None => gen_id
        end in
      let unit := mkUnit id content source_doi confidence vector in
      let row := mkRow id content (stored_source source_doi) confidence
                       created_at vector in
      (Ok unit,
       mkKG (table kg ++ [row]) (add_node (graph kg) id content)
            (persistence kg))
  end.

Definition connect_concepts (kg : KnowledgeGraph)
    (source_id target_id : string) (relation_type reasoning : string)
  : result Relation * KnowledgeGraph :=
  match get_unit kg source_id with
  | None => (Raise (ValueError ("Source unit not found: " ++ source_id)), kg)
  | Some _ =>
      match get_unit kg target_id with
      | None => (Raise (ValueError ("Target unit not found: " ++ target_id)), kg)
      | Some _ =>
          let relation := mkRelation source_id target_id relation_type reasoning in
          (Ok relation,
           mkKG (table kg)
                (add_edge (graph kg) source_id target_id
                          (mkEdge relation_type reasoning))
                (add_relation (persistence kg) relation))
      end
  end.

(** [score = 1 - row.get("_distance", 0)] *)
Definition score_of (d : option float) : float :=
  match d with
  | Some x => PrimFloat.sub 1%float x
  | None => 1%float
  end.

Definition semantic_search (kg : KnowledgeGraph) (query : string) (limit : nat)
  : result (list (AtomicUnit * float)) :=
  match embed query with
  | None => Raise UpstreamFailure
  | Some query_vector =>
      Ok (map (fun rd => (unit_of_row (fst rd), score_of (snd rd)))
              (vector_search (table kg) query_vector limit))
  end.

(** *** [find_path] *)

(** [len(path) < best_path_length], where [None] is [float("inf")]. *)
Definition shorter (n : nat) (best_path_length : option nat) : bool :=
  match best_path_length with
  | None => true
  | Some m => Nat.ltb n m
  end.

(** The body of the inner loop for one pair of candidates.  The state is
    [(best_path, best_path_length)].  Only [NetworkXNoPath] is caught. *)
Definition try_pair (g : DiGraph) (start_id end_id : string)
    (best : option (list string) * option nat)
  : result (option (list string) * option nat) :=
  if String.eqb start_id end_id then Ok best
  else
    match shortest_path g start_id end_id with
    | SpPath path =>
        if shorter (length path) (snd best)
        then Ok (Some path, Some (length path))
        else Ok best
    | SpNoPath => Ok best
    | SpNodeNotFound n => Raise (NodeNotFound n)
    end.

Fixpoint inner_loop (g : DiGraph) (start_id : string) (end_ids : list string)
    (best : option (list string) * option nat)
  : result (option (list string) * option nat) :=
  match end_ids with
  | [] => Ok best
  | e :: rest => do b <- try_pair g start_id e best; inner_loop g start_id rest b
  end.

Fixpoint outer_loop (g : DiGraph) (start_ids end_ids : list string)
    (best : option (list string) * option nat)
  : result (option (list string) * option nat) :=
  match start_ids with
  | [] => Ok best
  | s :: rest => do b <- inner_loop g s end_ids best; outer_loop g rest end_ids b
  end.

(** The relation reported between a node and the next one on the path:
    the edge [node -> next] if the graph has it, else the edge
    [next -> node], else nothing. *)
Definition relation_between (g : DiGraph) (node_id next_id : string)
  : option Relation :=
  if has_edge g node_id next_id then
    match edge_data g node_id next_id with
    | Some d => Some (mkRelation node_id next_id (edge_type d) (edge_reasoning d))
    | None => None
    end
  else if has_edge g next_id node_id then
    match edge_data g next_id node_id with
    | Some d => Some (mkRelation next_id node_id (edge_type d) (edge_reasoning d))
    | None => None
    end
  else None.

(** The loop that builds the steps, on the part of the path still to
    walk: its head is [best_path[i]] and the head of its tail is
    [best_path[i + 1]]. *)
Fixpoint build_steps (kg : KnowledgeGraph) (path : list string)
  : list LineageStep :=
  match path with
  | [] => []
  | node_id :: rest =>
      match get_unit kg node_id with
      | None => build_steps kg rest
      | Some unit =>
          let relation :=
            match rest with
            | [] => None
            | next_id :: _ => relation_between (graph kg) node_id next_id
            end in
          mkStep unit relation :: build_steps kg rest
      end
  end.

(** The path the two loops settle on. *)
Definition best_path (g : DiGraph) (start_results end_results : list (AtomicUnit * float))
  : result (option (list string)) :=
  do b <- outer_loop g (map (fun r => unit_id (fst r)) start_results)
                       (map (fun r => unit_id (fst r)) end_results)
                       (None, None);
  Ok (fst b).

Definition find_path (kg : KnowledgeGraph) (start_concept end_concept : string)
  : result (list LineageStep) :=
  do start_results <- semantic_search kg start_concept 3;
  match start_results with
  | [] => Raise (ValueError ("No units found matching: " ++ start_concept))
  | start0 :: _ =>
      do end_results <- semantic_search kg end_concept 3;
      match end_results with
      | [] => Raise (ValueError ("No units found matching: " ++ end_concept))
      | end0 :: _ =>
          do best <- best_path (graph kg) start_results end_results;
          match best with
          | None | Some [] =>
              Ok [mkStep (fst start0) None; mkStep (fst end0) None]
          | Some path => Ok (build_steps kg path)
          end
      end
  end.

(** *** [get_conflicts] *)

(** [rel.type in ("refutes", "contradicts")] *)
Definition contradicting (r : Relation) : bool :=
  String.eqb (rel_type r) "refutes" || String.eqb (rel_type r) "contradicts".

(** The [for rel in relations: ... break / else: ...] loop for one
    candidate, appending to [conflicts]. *)
Fixpoint scan_relations (unit : AtomicUnit) (score : float)
    (relations : list Relation) (conflicts : list ConflictResult)
  : list ConflictResult :=
  match relations with
  | [] =>
      if PrimFloat.ltb 0.85%float score
      then conflicts ++
           [mkConflict unit None
              ("Highly similar (score: " ++ format_score score
                 ++ ") but potentially conflicting content")]
      else conflicts
  | rel :: rest =>
      if contradicting rel
      then conflicts ++
           [mkConflict unit (Some rel)
              ("This unit has a '" ++ rel_type rel ++ "' relationship: "
                 ++ reasoning rel)]
      else scan_relations unit score rest conflicts
  end.

Definition check_candidate (kg : KnowledgeGraph)
    (conflicts : list ConflictResult) (cand : AtomicUnit * float)
  : list ConflictResult :=
  let (unit, score) := cand in
  if PrimFloat.ltb score 0.5%float then conflicts
  else scan_relations unit score
         (get_relations_for_unit (persistence kg) (unit_id unit)) conflicts.

Definition get_conflicts (kg : KnowledgeGraph) (claim : string)
  : result (list ConflictResult) :=
  do similar <- semantic_search kg claim 10;
  Ok (fold_left (check_candidate kg) similar []).

(** *** [delete_unit] *)

Definition delete_unit (kg : KnowledgeGraph) (uid : string)
  : result DeletionReport * KnowledgeGraph :=
  match get_unit kg uid with
  | None => (Raise (ValueError ("Unit not found: " ++ uid)), kg)
  | Some unit =>
      let connections := get_unit_connections kg uid in
      let table' := filter (fun row => negb (String.eqb (row_id row) uid)) (table kg) in
      let graph' := if has_node (graph kg) uid
                    then remove_node (graph kg) uid else graph kg in
      let (relations', deleted_relations) :=
        delete_relations_for_unit (persistence kg) uid in
      (Ok (mkReport uid (content unit) (source_doi unit)
                    deleted_relations (length connections)),
       mkKG table' graph' relations')
  end.

End Engine.

(** ** Notions used to state the properties *)

(** The pairs of candidates in the order the two loops of [find_path]
    visit them: all end candidates for the first start candidate, then all
    for the second, and so on. *)
Definition candidate_pairs (start_ids end_ids : list string)
  : list (string * string) :=
  list_prod start_ids end_ids.

(** The two loops run as one loop over [candidate_pairs]. *)
Fixpoint pairs_loop (g : DiGraph) (ps : list (string * string))
    (best : option (list string) * option nat)
  : result (option (list string) * option nat) :=
  match ps with
  | [] => Ok best
  | pr :: rest => do b <- try_pair g (fst pr) (snd pr) best; pairs_loop g rest b
  end.

(** A pair is tried, and the search finds the path [p] for it. *)
Definition yields (g : DiGraph) (pr : string * string) (p : list string) : Prop :=
  fst pr <> snd pr /\ shortest_path g (fst pr) (snd pr) = SpPath p.

Definition candidate_ids (rs : list (AtomicUnit * float)) : list string :=
  map (fun r => unit_id (fst r)) rs.

(** Walks of the undirected view.  A walk is kept the way the search
    keeps it, last node first. *)
Inductive rwalk (g : DiGraph) (s : string) : string -> list string -> Prop :=
| rwalk_start : rwalk g s s [s]
| rwalk_step v w p :
    rwalk g s v p -> adjacent g v w = true -> rwalk g s w (w :: p).

(** Consecutive nodes are joined by an edge, in one direction or the other. *)
Fixpoint chain (g : DiGraph) (p : list string) : bool :=
  match p with
  | u :: (v :: _) as rest => adjacent g u v && chain g rest
  | _ => true
  end.

(** [p] is a path of the undirected view from [s] to [t]. *)
Definition is_path (g : DiGraph) (s t : string) (p : list string) : bool :=
  match p with
  | [] => false
  | u :: _ => String.eqb u s && String.eqb (last p "") t && chain g p
  end.

(** The invariant of the search at layer [k]. *)
Record bfs_inv (g : DiGraph) (s t : string) (k : nat)
    (visited : list string) (level : list (list string)) : Prop := {
  inv_walks : forall p, In p level -> rwalk g s (hd "" p) p /\ length p = S k;
  inv_heads : forall p, In p level -> In (hd "" p) visited;
  inv_closed : forall v w, In v visited -> ~ In v (map (hd "") level) ->
                           adjacent g v w = true -> In w visited;
  inv_far : forall x q, rwalk g s x q -> ~ In x visited -> S k < length q;
  inv_front : forall x q, rwalk g s x q -> In x (map (hd "") level) ->
                          S k <= length q;
  inv_target : In t visited -> In t (map (hd "") level);
  inv_source : In s visited;
  inv_nodup : NoDup visited;
  inv_bound : incl visited (s :: endpoints g)
}.


(** The round trip of ingestion with the source returned unchanged. *)
Definition roundtrip_identical (embed : string -> option (list float))
    (kg : KnowledgeGraph) (text : string) (src : option string) (conf : float)
    (uid : option string) (gen_id created_at : string) : Prop :=
  forall unit kg',
    add_proposition embed kg text src conf uid gen_id created_at = (Ok unit, kg') ->
    exists u, get_unit kg' (unit_id unit) = Some u /\
              content u = text /\ source_doi u = src /\ confidence u = conf.

(** A relation that states a conflict. *)
Definition is_contradiction (r : Relation) : Prop :=
  rel_type r = "refutes" \/ rel_type r = "contradicts".

(** What [get_conflicts] has to emit for one candidate of the search:
    nothing below 0.5; else one result with the first stored relation of the
    unit that states a conflict; else, above 0.85, one result without a
    relation; else nothing. *)
Inductive emission (format_score : float -> string) (kg : KnowledgeGraph)
  : AtomicUnit * float -> list ConflictResult -> Prop :=
| emit_dissimilar unit score :
    PrimFloat.ltb score 0.5%float = true ->
    emission format_score kg (unit, score) []
| emit_relation unit score before rel after :
    PrimFloat.ltb score 0.5%float = false ->
    get_relations_for_unit (persistence kg) (unit_id unit) = before ++ rel :: after ->
    Forall (fun r => ~ is_contradiction r) before ->
    is_contradiction rel ->
    emission format_score kg (unit, score)
      [mkConflict unit (Some rel)
         ("This unit has a '" ++ rel_type rel ++ "' relationship: " ++ reasoning rel)]
| emit_similar unit score :
    PrimFloat.ltb score 0.5%float = false ->
    Forall (fun r => ~ is_contradiction r)
           (get_relations_for_unit (persistence kg) (unit_id unit)) ->
    PrimFloat.ltb 0.85%float score = true ->
    emission format_score kg (unit, score)
      [mkConflict unit None
         ("Highly similar (score: " ++ format_score score
            ++ ") but potentially conflicting content")]
| emit_nothing unit score :
    PrimFloat.ltb score 0.5%float = false ->
    Forall (fun r => ~ is_contradiction r)
           (get_relations_for_unit (persistence kg) (unit_id unit)) ->
    PrimFloat.ltb 0.85%float score = false ->
    emission format_score kg (unit, score) [].

(** The unit has a record in the vector index. *)
Definition indexed (kg : KnowledgeGraph) (uid : string) : bool :=
  match get_unit kg uid with
  | Some _ => true
  | None => false
  end.



(** ** A small data directory for the examples *)

Definition sample_embed (text : string) : option (list float) := Some [].

(** Every row is at distance 0 from every query; the first [limit] rows in
    table order come back. *)
Definition sample_search (rows : list Row) (query : list float) (limit : nat)
  : list (Row * option float) :=
  firstn limit (map (fun row => (row, Some 0%float)) rows).

Definition sample_format (score : float) : string := "1.00".

Definition empty_kg : KnowledgeGraph := mkKG [] empty_graph [].

(** Two units ["a"] and ["b"], ingested in that order. *)
Definition kg_ab : KnowledgeGraph :=
  let kg1 := snd (add_proposition sample_embed empty_kg "A" None 1%float (Some "a") "g" "t0") in
  snd (add_proposition sample_embed kg1 "B" None 1%float (Some "b") "g" "t0").

(** The same with the relation ["a" supports "b"]. *)
Definition kg_linked : KnowledgeGraph :=
  snd (connect_concepts kg_ab "a" "b" "supports" "why").

(** Three units, with ["c" refutes "b"] as the only relation. *)
Definition kg_refuted : KnowledgeGraph :=
  let kg3 := snd (add_proposition sample_embed kg_ab "C" None 1%float (Some "c") "g" "t0") in
  snd (connect_concepts kg3 "c" "b" "refutes" "why").


(** A data directory whose graph runs ["a" -> "b" -> "c"] while the vector
    index has lost the row of ["b"]. *)
Definition kg_gap : KnowledgeGraph :=
  mkKG [mkRow "a" "A" "" 1%float "t0" []; mkRow "c" "C" "" 1%float "t0" []]
       (mkGraph [("a", Some "A"); ("b", Some "B"); ("c", Some "C")]
                [("a", "b", mkEdge "implies" "ab"); ("b", "c", mkEdge "implies" "bc")])
       [mkRelation "a" "b" "implies" "ab"; mkRelation "b" "c" "implies" "bc"].

(** Four units; the graph runs ["a" - "x" - "b" - "c"], and ["x"], ingested
    last, is beyond the limit of the searches. *)
Definition kg_chain : KnowledgeGraph :=
  let kg3 := snd (add_proposition sample_embed kg_ab "C" None 1%float (Some "c") "g" "t0") in
  let kg4 := snd (add_proposition sample_embed kg3 "X" None 1%float (Some "x") "g" "t0") in
  let kg5 := snd (connect_concepts kg4 "a" "x" "implies" "ax") in
  let kg6 := snd (connect_concepts kg5 "x" "b" "implies" "xb") in
  snd (connect_concepts kg6 "b" "c" "extends" "bc").

(** ** The idempotency cache ([PersistenceManager._idempotency_cache])

    A Python [dict] with string keys: entries in insertion order, one per
    key; assigning to a key that is present replaces its value in place. *)

(** [d.get(key)] *)
Fixpoint dict_get {V : Type} (d : list (string * V)) (key : string) : option V :=
  match d with
  | [] => None
  | (k, v) :: rest => if String.eqb k key then Some v else dict_get rest key
  end.

(** [d[key] = value] *)
Fixpoint dict_set {V : Type} (d : list (string * V)) (key : string) (value : V)
  : list (string * V) :=
  match d with
  | [] => [(key, value)]
  | (k, v) :: rest =>
      if String.eqb k key then (k, value) :: rest
      else (k, v) :: dict_set rest key value
  end.

Definition check_idempotency {V : Type} (cache : list (string * V)) (key : string)
  : option V :=
  dict_get cache key.

Definition store_idempotency {V : Type} (cache : list (string * V))
    (key : string) (result : V) : list (string * V) :=
  dict_set cache key result.

(** Returns the emptied cache and the number of keys cleared. *)
Definition clear_idempotency_cache {V : Type} (cache : list (string * V))
  : list (string * V) * nat :=
  ([], length cache).

(** ** The persistence manager with its two files

    The content of a file is modelled by the value last dumped into it;
    [None] is a file that does not exist. *)
Record PersistenceManager (V : Type) : Type := mkPM {
  pm_relations : list Relation;
  pm_idempotency_cache : list (string * V);
  relations_file : option (list Relation);
  idempotency_file : option (list (string * V))
}.

Arguments mkPM {V} _ _ _ _.
Arguments pm_relations {V} _.
Arguments pm_idempotency_cache {V} _.
Arguments relations_file {V} _.
Arguments idempotency_file {V} _.

(** [__init__] and [_load]: what exists on disk is read, the rest starts
    empty. *)
Definition pm_open {V : Type} (rf : option (list Relation))
    (cf : option (list (string * V))) : PersistenceManager V :=
  mkPM (match rf with Some rels => rels | None => [] end)
       (match cf with Some cache => cache | None => [] end)
       rf cf.

(** [add_relation]: append, then [_save_relations]. *)
Definition pm_add_relation {V : Type} (pm : PersistenceManager V) (r : Relation)
  : PersistenceManager V :=
  let rels := add_relation (pm_relations pm) r in
  mkPM rels (pm_idempotency_cache pm) (Some rels) (idempotency_file pm).

(** [delete_relations_for_unit]: the file is rewritten only when something
    was deleted. *)
Definition pm_delete_relations_for_unit {V : Type} (pm : PersistenceManager V)
    (uid : string) : PersistenceManager V * nat :=
  let (kept, deleted_count) := delete_relations_for_unit (pm_relations pm) uid in
  (mkPM kept (pm_idempotency_cache pm)
        (if Nat.ltb 0 deleted_count then Some kept else relations_file pm)
        (idempotency_file pm),
   deleted_count).

Definition pm_store_idempotency {V : Type} (pm : PersistenceManager V)
    (key : string) (result : V) : PersistenceManager V :=
  let cache := store_idempotency (pm_idempotency_cache pm) key result in
  mkPM (pm_relations pm) cache (relations_file pm) (Some cache).

Definition pm_clear_idempotency_cache {V : Type} (pm : PersistenceManager V)
  : PersistenceManager V * nat :=
  let (cache, count) := clear_idempotency_cache (pm_idempotency_cache pm) in
  (mkPM (pm_relations pm) cache (relations_file pm) (Some cache), count).

(** The calls that change a manager. *)
Inductive pm_call (V : Type) : Type :=
| CallAddRelation (r : Relation)
| CallDeleteRelationsForUnit (uid : string)
| CallStoreIdempotency (key : string) (result : V)
| CallClearIdempotencyCache.

Arguments CallAddRelation {V} r.
Arguments CallDeleteRelationsForUnit {V} uid.
Arguments CallStoreIdempotency {V} key result.
Arguments CallClearIdempotencyCache {V}.

Definition pm_run {V : Type} (pm : PersistenceManager V) (c : pm_call V)
  : PersistenceManager V :=
  match c with
  | CallAddRelation r => pm_add_relation pm r
  | CallDeleteRelationsForUnit uid => fst (pm_delete_relations_for_unit pm uid)
  | CallStoreIdempotency key result => pm_store_idempotency pm key result
  | CallClearIdempotencyCache => fst (pm_clear_idempotency_cache pm)
  end.

(** ** The graph as a mirror of the relation store *)

(** The relation runs from [u] to [v]. *)
Definition links (u v : string) (r : Relation) : bool :=
  String.eqb (source_id r) u && String.eqb (target_id r) v.

(** Type and reasoning of the relation from [u] to [v] stored last. *)
Definition newest_relation (rels : list Relation) (u v : string)
  : option EdgeData :=
  option_map (fun r => mkEdge (rel_type r) (reasoning r))
             (find (links u v) (rev rels)).


(** One call that changes the engine, whatever it returns. *)
Inductive step (embed : string -> option (list float))
  : KnowledgeGraph -> KnowledgeGraph -> Prop :=
| step_add_proposition kg text src conf uid gen_id created_at :
    step embed kg
         (snd (add_proposition embed kg text src conf uid gen_id created_at))
| step_connect_concepts kg s t ty why :
    step embed kg (snd (connect_concepts kg s t ty why))
| step_delete_unit kg uid :
    step embed kg (snd (delete_unit kg uid)).



(** Every unit of the vector index is a node of the graph. *)
Definition units_are_nodes (kg : KnowledgeGraph) : Prop :=
  forall row, In row (table kg) -> has_node (graph kg) (row_id row) = true.

(** The search of the index returns rows of the table it is given. *)
Definition search_within_table
    (vector_search : list Row -> list float -> nat -> list (Row * option float))
  : Prop :=
  forall rows query limit x,
    In x (vector_search rows query limit) -> In (fst x) rows.


(** ** The tools of the MCP server ([server.py])

    A tool returns a Python [dict]; the idempotency cache holds such dicts,
    or whatever the cache file held.  Both are values of [json]. *)

From Stdlib Require DecimalString.

Set Warnings "-register-all".

Inductive json : Type :=
| JNull
| JBool (b : bool)
| JInt (n : nat)
| JFloat (f : float)
| JStr (s : string)
| JList (items : list json)
| JDict (entries : list (string * json)).

(** Truth value of a Python object. *)
Definition truthy (j : json) : bool :=
  match j with
  | JNull => false
  | JBool b => b
  | JInt n => negb (Nat.eqb n 0)
  | JFloat f => negb (PrimFloat.eqb f 0%float)
  | JStr s => nonempty s
  | JList items => match items with [] => false | _ => true end
  | JDict entries => match entries with [] => false | _ => true end
  end.

(** [j[key]] read defensively. *)
Definition field (j : json) (key : string) : option json :=
  match j with
  | JDict entries => dict_get entries key
  | _ => None
  end.

Definition json_of_option (s : option string) : json :=
  match s with
  | Some x => JStr x
  | None => JNull
  end.

(** [str(n)] for a count. *)
Definition str_of_nat (n : nat) : string :=
  DecimalString.NilEmpty.string_of_uint (Nat.to_uint n).

Module Server.

(** The engine behind [get_graph()], with the cache of its persistence
    manager. *)
Record state : Type := mkState {
  engine : KnowledgeGraph;
  cache : list (string * json)
}.

(** [if idempotency_key: cached = check_idempotency(key); if cached: return
    cached] *)
Definition cached_result (st : state) (idempotency_key : option string)
  : option json :=
  match idempotency_key with
  | Some key =>
      if nonempty key then
        match check_idempotency (cache st) key with
        | Some cached => if truthy cached then Some cached else None
        | None => None
        end
      else None
  | None => None
  end.

(** [if idempotency_key: store_idempotency(key, result)] *)
Definition cache_result (st : state) (idempotency_key : option string)
    (result : json) : state :=
  match idempotency_key with
  | Some key =>
      if nonempty key
      then mkState (engine st) (store_idempotency (cache st) key result)
      else st
  | None => st
  end.

Definition error_response (message : string) : json :=
  JDict [("status", JStr "error"); ("message", JStr message)].

Definition action (tool description : string) : json :=
  JDict [("tool", JStr tool); ("description", JStr description)].



Definition valid_relations : list string :=
  ["supports"; "refutes"; "extends"; "implies"; "contradicts"].

Definition connect_propositions (st : state)
    (id_a id_b relation why : string) (idempotency_key : option string)
  : result json * state :=
  if negb (mem relation valid_relations) then
    (Ok (error_response
           "Invalid relation type. Must be one of: ['supports', 'refutes', 'extends', 'implies', 'contradicts']"),
     st)
  else
    match cached_result st idempotency_key with
    | Some cached => (Ok cached, st)
    | None =>
        match connect_concepts (engine st) id_a id_b relation why with
        | (Raise (ValueError msg), kg) =>
            (Ok (error_response msg), mkState kg (cache st))
        | (Raise e, kg) => (Raise e, mkState kg (cache st))
        | (Ok rel, kg) =>
            let source_unit := get_unit kg id_a in
            let target_unit := get_unit kg id_b in
            let result :=
              JDict [("status", JStr "success");
                     ("relation",
                      JDict [("source_id", JStr (source_id rel));
                             ("target_id", JStr (target_id rel));
                             ("type", JStr (rel_type rel));
                             ("reasoning", JStr (reasoning rel))]);
                     ("source_content", json_of_option (option_map content source_unit));
                     ("target_content", json_of_option (option_map content target_unit));
                     ("available_actions",
                      JList [action "find_scientific_lineage" "Trace the intellectual path";
                             action "find_contradictions" "Check for conflicts";
                             action "semantic_search" "Find related concepts"])] in
            (Ok result, cache_result (mkState kg (cache st)) idempotency_key result)
        end
    end.

Definition step_dict (step : LineageStep) : json :=
  let base := [("unit_id", JStr (unit_id (step_unit step)));
               ("content", JStr (content (step_unit step)));
               ("source", json_of_option (source_doi (step_unit step)))] in
  match relation_to_next step with
  | Some r =>
      JDict (base ++ [("relation_to_next",
                       JDict [("type", JStr (rel_type r));
                              ("reasoning", JStr (reasoning r))])])
  | None => JDict base
  end.

(** Only [ValueError] is caught. *)
Definition find_scientific_lineage (embed : string -> option (list float))
    (vector_search : list Row -> list float -> nat -> list (Row * option float))
    (st : state) (start_concept end_concept : string) : result json :=
  match find_path embed vector_search (engine st) start_concept end_concept with
  | Ok steps =>
      Ok (JDict [("status", JStr "success");
                 ("start_concept", JStr start_concept);
                 ("end_concept", JStr end_concept);
                 ("path_length", JInt (length steps));
                 ("path", JList (map step_dict steps));
                 ("available_actions",
                  JList [action "get_unit" "Get details of any unit in the path";
                         action "connect_propositions"
                                "Add more connections to the lineage"])])
  | Raise (ValueError msg) => Ok (error_response msg)
  | Raise e => Raise e
  end.

Definition delete_unit (st : state) (uid : string) (confirm : bool)
  : result json * state :=
  if negb confirm then
    match get_unit (engine st) uid with
    | None => (Ok (error_response ("Unit not found: " ++ uid)), st)
    | Some unit =>
        let connections := get_unit_connections (engine st) uid in
        (Ok (JDict [("status", JStr "confirmation_required");
                    ("message",
                     JStr "Set confirm=True to delete. This action cannot be undone.");
                    ("unit_to_delete",
                     JDict [("id", JStr (unit_id unit));
                            ("content", JStr (content unit));
                            ("source", json_of_option (source_doi unit))]);
                    ("connections_to_delete", JInt (length connections));
                    ("warning",
                     JStr ("This will permanently delete the unit and "
                             ++ str_of_nat (length connections)
                             ++ " connection(s)."))]),
         st)
    end
  else
    match delete_unit (engine st) uid with
    | (Ok report, kg) =>
        (Ok (JDict [("status", JStr "success");
                    ("message", JStr "Unit deleted successfully");
                    ("deleted",
                     JDict [("unit_id", JStr (deleted_unit_id report));
                            ("content", JStr (deleted_content report));
                            ("source", json_of_option (deleted_source report));
                            ("relations_removed",
                             JInt (deleted_relations_count report))]);
                    ("available_actions",
                     JList [action "list_propositions" "View remaining units";
                            action "ingest_hypothesis" "Add a corrected version"])]),
         mkState kg (cache st))
    | (Raise (ValueError msg), kg) =>
        (Ok (error_response msg), mkState kg (cache st))
    | (Raise e, kg) => (Raise e, mkState kg (cache st))
    end.

End Server.


Definition server_ab : Server.state := Server.mkState kg_ab [].

Definition server_linked : Server.state := Server.mkState kg_linked [].

Ltac split_all := repeat match goal with |- _ /\ _ => split end.

(** ** Facts about the graph search *)

Lemma mem_In (x : string) (l : list string) : mem x l = true <-> In x l.
Proof.
  unfold mem. rewrite existsb_exists. split.
  - intros [y [Hy He]]. apply String.eqb_eq in He. now subst.
  - intros H. exists x. split; [assumption | apply String.eqb_refl].
Qed.

Lemma mem_false (x : string) (l : list string) : mem x l = false <-> ~ In x l.
Proof.
  rewrite <- mem_In. destruct (mem x l); split; intros; congruence.
Qed.

Lemma has_edge_In (g : DiGraph) (u v : string) :
  has_edge g u v = true <-> exists d, In (u, v, d) (edges g).
Proof.
  unfold has_edge, is_edge. rewrite existsb_exists. split.
  - intros [[[a b] d] [Hin He]]. simpl in He.
    apply andb_true_iff in He. destruct He as [Ha Hb].
    apply String.eqb_eq in Ha, Hb. subst. now exists d.
  - intros [d Hin]. exists (u, v, d). simpl.
    now rewrite !String.eqb_refl.
Qed.

Lemma neighbors_in_spec (es : list (string * string * EdgeData)) (v w : string) :
  In w (neighbors_in es v) <->
  exists d, In (v, w, d) es \/ In (w, v, d) es.
Proof.
  induction es as [| [[a b] d] es IH]; simpl.
  - split; [tauto | intros [d [[] | []]]].
  - rewrite !in_app_iff, IH. split.
    + intros [H | [H | [d' H]]].
      * destruct (String.eqb_spec a v); simpl in H; [| tauto].
        destruct H as [-> | []]. subst. exists d. auto.
      * destruct (String.eqb_spec b v); simpl in H; [| tauto].
        destruct H as [-> | []]. subst. exists d. auto.
      * exists d'. tauto.
    + intros [d' [[H | H] | [H | H]]].
      * inversion H; subst. left. rewrite String.eqb_refl. now left.
      * right; right. exists d'. auto.
      * inversion H; subst. right; left. rewrite String.eqb_refl. now left.
      * right; right. exists d'. auto.
Qed.

Lemma neighbors_adjacent (g : DiGraph) (v w : string) :
  In w (neighbors g v) <-> adjacent g v w = true.
Proof.
  unfold neighbors, adjacent. rewrite neighbors_in_spec, orb_true_iff, !has_edge_In.
  split.
  - intros [d [H | H]]; [left | right]; now exists d.
  - intros [[d H] | [d H]]; exists d; auto.
Qed.

Lemma neighbors_endpoints (g : DiGraph) (v w : string) :
  In w (neighbors g v) -> In w (endpoints g).
Proof.
  unfold neighbors, endpoints. rewrite neighbors_in_spec.
  intros [d [H | H]]; apply in_flat_map; eexists; (split; [exact H |]); simpl; auto.
Qed.

(** What one call of [extend] adds. *)
Lemma extend_spec (p ws : list string) :
  forall visited ps vis,
    extend visited p ws = (ps, vis) ->
    (forall x, In x vis <-> In x visited \/ In x ws) /\
    (forall q, In q ps -> exists w, q = w :: p /\ In w ws /\ ~ In w visited) /\
    (forall x, In x vis -> In x visited \/ In x (map (hd "") ps)) /\
    length vis = length visited + length ps /\
    (NoDup visited -> NoDup vis).
Proof.
  induction ws as [| w ws IH]; intros visited ps vis H; simpl in H.
  - inversion H; subst. simpl. split_all; try tauto; lia.
  - destruct (mem w visited) eqn:Hm.
    + apply mem_In in Hm.
      destruct (IH _ _ _ H) as (H1 & H2 & H3 & H4 & H5).
      split_all; auto.
      * intros x. rewrite H1. simpl. split; [tauto |].
        intros [Hx | [<- | Hx]]; auto.
      * intros q Hq. destruct (H2 q Hq) as (w' & -> & Hw & Hn).
        exists w'. simpl. auto.
    + apply mem_false in Hm.
      destruct (extend (w :: visited) p ws) as [ps' vis'] eqn:He.
      inversion H; subst.
      destruct (IH _ _ _ He) as (H1 & H2 & H3 & H4 & H5).
      split_all.
      * intros x. rewrite H1. simpl. tauto.
      * intros q [<- | Hq].
        -- exists w. simpl. auto.
        -- destruct (H2 q Hq) as (w' & -> & Hw & Hn).
           exists w'. simpl in *. tauto.
      * intros x Hx. destruct (H3 x Hx) as [[-> | Hv] | Hh]; simpl; auto.
      * simpl in *. lia.
      * intros Hnd. apply H5. now constructor.
Qed.

(** What one layer of the search adds. *)
Lemma expand_spec (g : DiGraph) (level : list (list string)) :
  forall visited ps vis,
    expand g visited level = (ps, vis) ->
    (forall x, In x vis <->
               In x visited \/ exists p, In p level /\ In x (neighbors g (hd "" p))) /\
    (forall q, In q ps ->
               exists p w, In p level /\ q = w :: p /\
                           In w (neighbors g (hd "" p)) /\ ~ In w visited) /\
    (forall x, In x vis -> In x visited \/ In x (map (hd "") ps)) /\
    length vis = length visited + length ps /\
    (NoDup visited -> NoDup vis).
Proof.
  induction level as [| p level IH]; intros visited ps vis H; simpl in H.
  - inversion H; subst. simpl. split_all; try tauto; try lia.
    intros x. split; [tauto |]. intros [Hx | [p [[] _]]]; assumption.
  - destruct (extend visited p (neighbors g (hd "" p))) as [ps1 v1] eqn:He.
    destruct (expand g v1 level) as [ps2 v2] eqn:Hx.
    inversion H; subst.
    destruct (extend_spec _ _ _ _ _ He) as (E1 & E2 & E3 & E4 & E5).
    destruct (IH _ _ _ Hx) as (H1 & H2 & H3 & H4 & H5).
    split_all.
    + intros x. rewrite H1, E1. split.
      * intros [[Hi | Hi] | [p' [Hp' Hn]]]; auto.
        -- right. exists p. simpl. auto.
        -- right. exists p'. simpl. auto.
      * intros [Hi | [p' [[<- | Hp'] Hn]]]; auto.
        right. exists p'. auto.
    + intros q Hq. apply in_app_iff in Hq. destruct Hq as [Hq | Hq].
      * destruct (E2 q Hq) as (w & -> & Hw & Hn).
        exists p, w. simpl. auto.
      * destruct (H2 q Hq) as (p' & w & Hp' & -> & Hw & Hn).
        exists p', w. simpl. split_all; auto.
        intros Hv. apply Hn. apply E1. auto.
    + intros x Hi. rewrite map_app, in_app_iff.
      destruct (H3 x Hi) as [Hv | Hh]; [| auto].
      destruct (E3 x Hv); auto.
    + rewrite length_app. lia.
    + auto.
Qed.

Lemma rwalk_hd g s x p : rwalk g s x p -> hd "" p = x.
Proof. now destruct 1. Qed.

Lemma rwalk_length g s x p : rwalk g s x p -> 1 <= length p.
Proof. destruct 1; simpl; lia. Qed.

Lemma find_reaches_some t level p :
  find (reaches t) level = Some p -> In p level /\ hd "" p = t.
Proof.
  intros H. apply find_some in H. destruct H as [Hin Hr]. split; [assumption |].
  destruct p as [| v p]; simpl in *; [discriminate |].
  now apply String.eqb_eq.
Qed.

Lemma find_reaches_none t level :
  find (reaches t) level = None ->
  (forall p, In p level -> p <> []) ->
  ~ In t (map (hd "") level).
Proof.
  intros H Hne Hin. apply in_map_iff in Hin. destruct Hin as (p & Hhd & Hp).
  pose proof (find_none _ _ H p Hp) as Hr.
  destruct p as [| v p]; [now apply (Hne [] Hp) |].
  simpl in *. subst. now rewrite String.eqb_refl in Hr.
Qed.

Lemma bfs_inv_init g s t : bfs_inv g s t 0 [s] [[s]].
Proof.
  constructor; simpl.
  - intros p [<- | []]. split; [constructor | reflexivity].
  - intros p [<- | []]. simpl. auto.
  - intros v w [<- | []] Hn. exfalso. apply Hn. auto.
  - intros x q Hw Hn. destruct Hw; simpl.
    + exfalso. apply Hn. auto.
    + apply rwalk_length in Hw. lia.
  - intros x q Hw _. apply rwalk_length in Hw. lia.
  - intros [<- | []]. auto.
  - auto.
  - constructor; [intros [] | constructor].
  - intros x [<- | []]. simpl. auto.
Qed.

Lemma bfs_inv_step g s t k visited level level' visited' :
  bfs_inv g s t k visited level ->
  ~ In t (map (hd "") level) ->
  expand g visited level = (level', visited') ->
  bfs_inv g s t (S k) visited' level'.
Proof.
  intros I Ht He.
  destruct (expand_spec _ _ _ _ _ He) as (X1 & X2 & X3 & X4 & X5).
  assert (Hsub : forall x, In x visited -> In x visited').
  { intros x Hx. apply X1. auto. }
  assert (Hnext : forall v w, In v visited -> adjacent g v w = true -> In w visited').
  { intros v w Hv Ha.
    destruct (in_dec string_dec v (map (hd "") level)) as [Hh | Hh].
    - apply in_map_iff in Hh. destruct Hh as (p & <- & Hp).
      apply X1. right. exists p. split; [assumption |].
      now apply neighbors_adjacent.
    - apply Hsub. eapply (inv_closed _ _ _ _ _ _ I); eauto. }
  constructor.
  - intros q Hq. destruct (X2 q Hq) as (p & w & Hp & -> & Hw & Hn).
    destruct (inv_walks _ _ _ _ _ _ I p Hp) as [Hwalk Hlen].
    simpl. split; [| lia].
    econstructor; [exact Hwalk |]. now apply neighbors_adjacent.
  - intros q Hq. destruct (X2 q Hq) as (p & w & Hp & -> & Hw & Hn).
    simpl. apply X1. right. exists p. auto.
  - intros v w Hv Hnh Ha.
    destruct (X3 v Hv) as [Hold | Hnew]; [| contradiction].
    eapply Hnext; eauto.
  - intros x q Hw Hn.
    assert (Hnv : ~ In x visited) by (intros Hx; apply Hn; auto).
    destruct Hw as [| v w p Hw Ha].
    + exfalso. apply Hnv. apply (inv_source _ _ _ _ _ _ I).
    + simpl. destruct (in_dec string_dec v visited) as [Hv | Hv].
      * exfalso. apply Hn. eapply Hnext; eauto.
      * pose proof (inv_far _ _ _ _ _ _ I v p Hw Hv). lia.
  - intros x q Hw Hh.
    apply in_map_iff in Hh. destruct Hh as (q' & <- & Hq').
    destruct (X2 q' Hq') as (p & w & Hp & -> & Hw' & Hn). simpl in *.
    pose proof (inv_far _ _ _ _ _ _ I w q Hw Hn). lia.
  - intros Hv. destruct (X3 t Hv) as [Hold | Hnew]; [| assumption].
    exfalso. apply Ht. now apply (inv_target _ _ _ _ _ _ I).
  - apply Hsub, (inv_source _ _ _ _ _ _ I).
  - apply X5, (inv_nodup _ _ _ _ _ _ I).
  - intros x Hx. apply X1 in Hx. destruct Hx as [Hx | (p & Hp & Hx)].
    + now apply (inv_bound _ _ _ _ _ _ I).
    + right. eapply neighbors_endpoints; eauto.
Qed.

(** From a closed set of nodes no walk leads out. *)
Lemma rwalk_closed g s (visited : list string) :
  In s visited ->
  (forall v w, In v visited -> adjacent g v w = true -> In w visited) ->
  forall x q, rwalk g s x q -> In x visited.
Proof.
  intros Hs Hc x q Hw. induction Hw; eauto.
Qed.

Lemma bfs_unfold fuel g t visited level :
  bfs fuel g t visited level =
  match find (reaches t) level with
  | Some p => SpPath (rev p)
  | None =>
      match level, fuel with
      | [], _ => SpNoPath
      | _, 0 => SpNoPath
      | _, S fuel' =>
          let (level', visited') := expand g visited level in
          bfs fuel' g t visited' level'
      end
  end.
Proof. destruct fuel; reflexivity. Qed.

(** A path of the current layer that ends in the target is a shortest walk. *)
Lemma bfs_found g s t k visited level p :
  bfs_inv g s t k visited level ->
  find (reaches t) level = Some p ->
  rwalk g s t (rev (rev p)) /\
  forall q, rwalk g s t q -> length (rev p) <= length q.
Proof.
  intros I Hf. apply find_reaches_some in Hf. destruct Hf as [Hp Hhd].
  destruct (inv_walks _ _ _ _ _ _ I p Hp) as [Hw Hlen].
  rewrite rev_involutive, length_rev, Hhd in *.
  split; [assumption |].
  intros q Hq. rewrite Hlen. eapply (inv_front _ _ _ _ _ _ I); eauto.
  apply in_map_iff. exists p. auto.
Qed.

Lemma bfs_not_found g s t k visited level :
  bfs_inv g s t k visited level ->
  find (reaches t) level = None ->
  ~ In t (map (hd "") level).
Proof.
  intros I Hf. apply find_reaches_none; [assumption |].
  intros p Hp ->. destruct (inv_walks _ _ _ _ _ _ I [] Hp). discriminate.
Qed.

(** When the layer is empty the target cannot be reached at all. *)
Lemma bfs_exhausted g s t k visited :
  bfs_inv g s t k visited [] ->
  forall q, ~ rwalk g s t q.
Proof.
  intros I q Hq.
  assert (Hv : In t visited).
  { eapply rwalk_closed; [apply (inv_source _ _ _ _ _ _ I) | | exact Hq].
    intros v w Hv Ha. eapply (inv_closed _ _ _ _ _ _ I); eauto. }
  exact (inv_target _ _ _ _ _ _ I Hv).
Qed.

(** The search returns a walk with the fewest nodes, or finds that there
    is none; the fuel never runs out. *)
Lemma bfs_correct g s t :
  forall fuel k visited level,
    bfs_inv g s t k visited level ->
    (level <> [] -> length (s :: endpoints g) < fuel + length visited) ->
    match bfs fuel g t visited level with
    | SpPath p => rwalk g s t (rev p) /\
                  forall q, rwalk g s t q -> length p <= length q
    | SpNoPath => forall q, ~ rwalk g s t q
    | SpNodeNotFound _ => False
    end.
Proof.
  induction fuel as [| fuel IH]; intros k visited level I Hfuel;
    rewrite bfs_unfold;
    (destruct (find (reaches t) level) as [p |] eqn:Hf;
     [eapply bfs_found; eauto |]);
    pose proof (bfs_not_found _ _ _ _ _ _ I Hf) as Hnt;
    (destruct level as [| p0 level]; [eapply bfs_exhausted; eauto |]);
    assert (Hne : p0 :: level <> []) by discriminate;
    specialize (Hfuel Hne).
  - exfalso.
    pose proof (NoDup_incl_length (inv_nodup _ _ _ _ _ _ I)
                  (inv_bound _ _ _ _ _ _ I)) as Hle.
    simpl in *. lia.
  - destruct (expand g visited (p0 :: level)) as [level' visited'] eqn:He.
    apply (IH (S k)).
    + eapply bfs_inv_step; eauto.
    + intros Hne'.
      destruct (expand_spec _ _ _ _ _ He) as (_ & _ & _ & X4 & _).
      destruct level' as [| q0 level']; [congruence |].
      simpl in *. lia.
Qed.

(** *** Paths, front to back *)

Lemma chain_snoc g p v w :
  chain g ((p ++ [v]) ++ [w]) = chain g (p ++ [v]) && adjacent g v w.
Proof.
  induction p as [| a p IH].
  - simpl. destruct (adjacent g v w); reflexivity.
  - destruct p as [| b p].
    + simpl. destruct (adjacent g a v), (adjacent g v w); reflexivity.
    + change (chain g (((a :: b :: p) ++ [v]) ++ [w]))
        with (adjacent g a b && chain g (((b :: p) ++ [v]) ++ [w])).
      change (chain g ((a :: b :: p) ++ [v]))
        with (adjacent g a b && chain g ((b :: p) ++ [v])).
      rewrite IH. now rewrite andb_assoc.
Qed.

Lemma hd_snoc (d v : string) (l : list string) : hd d (l ++ [v]) = hd v l.
Proof. now destruct l. Qed.

Lemma is_path_snoc_eq g s t p v :
  is_path g s t (p ++ [v]) =
  String.eqb (hd v p) s && String.eqb v t && chain g (p ++ [v]).
Proof.
  destruct p as [| a p]; [reflexivity |].
  unfold is_path. rewrite <- app_comm_cons.
  rewrite (app_comm_cons p [v] a), last_last. reflexivity.
Qed.

Lemma rwalk_is_path g s t p : rwalk g s t p -> is_path g s t (rev p) = true.
Proof.
  induction 1 as [| v w p Hw IH Ha].
  - simpl. now rewrite String.eqb_refl.
  - pose proof (rwalk_hd _ _ _ _ Hw) as Hhd.
    destruct p as [| v' p]; [inversion Hw |]. simpl in Hhd. subst v'.
    simpl rev in *. rewrite is_path_snoc_eq in *.
    rewrite chain_snoc, hd_snoc, Ha, String.eqb_refl.
    apply andb_true_iff in IH. destruct IH as [IH Hc].
    apply andb_true_iff in IH. destruct IH as [Hs _].
    now rewrite Hs, Hc.
Qed.

Lemma is_path_rwalk g s t p : is_path g s t p = true -> rwalk g s t (rev p).
Proof.
  revert t. induction p as [| w p IH] using rev_ind; intros t H.
  - discriminate.
  - rewrite rev_unit. rewrite is_path_snoc_eq in H.
    apply andb_true_iff in H. destruct H as [H Hc].
    apply andb_true_iff in H. destruct H as [Hs Ht].
    apply String.eqb_eq in Ht. subst t.
    destruct p as [| a p _] using rev_ind.
    + simpl in Hs. apply String.eqb_eq in Hs. subst. constructor.
    + rewrite chain_snoc in Hc. apply andb_true_iff in Hc. destruct Hc as [Hc Ha].
      rewrite hd_snoc in Hs.
      econstructor; [| exact Ha].
      apply IH. rewrite is_path_snoc_eq.
      now rewrite Hs, Hc, String.eqb_refl.
Qed.

(** What [nx.shortest_path] on the undirected view returns. *)
Lemma shortest_path_spec g s t :
  match shortest_path g s t with
  | SpPath p =>
      has_node g s = true /\ has_node g t = true /\
      is_path g s t p = true /\
      forall q, is_path g s t q = true -> length p <= length q
  | SpNoPath =>
      has_node g s = true /\ has_node g t = true /\
      forall q, is_path g s t q = false
  | SpNodeNotFound n =>
      has_node g n = false /\ (n = s \/ n = t)
  end.
Proof.
  unfold shortest_path.
  destruct (has_node g s) eqn:Hs; cbn [negb]; [| auto].
  destruct (has_node g t) eqn:Ht; cbn [negb]; [| auto].
  assert (Hfuel : [[s]] <> [] ->
                  length (s :: endpoints g) < S (length (endpoints g)) + length [s])
    by (intros _; simpl; lia).
  pose proof (bfs_correct g s t _ 0 [s] [[s]] (bfs_inv_init g s t) Hfuel) as H.
  destruct (bfs (S (length (endpoints g))) g t [s] [[s]]) as [p | | n].
  - destruct H as [Hw Hmin]. split_all; auto.
    + apply rwalk_is_path in Hw. now rewrite rev_involutive in Hw.
    + intros q Hq. apply is_path_rwalk in Hq. apply Hmin in Hq.
      now rewrite length_rev in Hq.
  - split_all; auto. intros q.
    destruct (is_path g s t q) eqn:Hq; [| reflexivity].
    exfalso. apply is_path_rwalk in Hq. eapply H. exact Hq.
  - destruct H.
Qed.


(** ** The candidate loops of [find_path] *)

Lemma inner_loop_pairs g s ends best :
  inner_loop g s ends best = pairs_loop g (map (fun e => (s, e)) ends) best.
Proof.
  revert best. induction ends as [| e ends IH]; intros best; simpl; [reflexivity |].
  destruct (try_pair g s e best); simpl; auto.
Qed.

Lemma pairs_loop_app g ps qs best :
  pairs_loop g (ps ++ qs) best = do b <- pairs_loop g ps best; pairs_loop g qs b.
Proof.
  revert best. induction ps as [| pr ps IH]; intros best; simpl; [reflexivity |].
  destruct (try_pair g (fst pr) (snd pr) best); simpl; auto.
Qed.

Lemma outer_loop_pairs g starts ends best :
  outer_loop g starts ends best = pairs_loop g (candidate_pairs starts ends) best.
Proof.
  unfold candidate_pairs.
  revert best. induction starts as [| s starts IH]; intros best; simpl; [reflexivity |].
  rewrite pairs_loop_app, inner_loop_pairs.
  destruct (pairs_loop g (map (fun e => (s, e)) ends) best); simpl; auto.
Qed.

(** One pair either leaves the best path alone or replaces it by a
    strictly shorter one. *)
Lemma try_pair_ok g s e best b :
  try_pair g s e best = Ok b ->
  (b = best /\
   forall p, yields g (s, e) p -> shorter (length p) (snd best) = false) \/
  (exists p, yields g (s, e) p /\ shorter (length p) (snd best) = true /\
             b = (Some p, Some (length p))).
Proof.
  unfold try_pair, yields. simpl.
  destruct (String.eqb_spec s e) as [-> | Hne].
  - intros H. inversion H; subst. left. split; [reflexivity |].
    intros p [Hc _]. now elim Hc.
  - destruct (shortest_path g s e) as [p | | n] eqn:Hsp.
    + destruct (shorter (length p) (snd best)) eqn:Hsh; intros H; inversion H; subst.
      * right. exists p. auto.
      * left. split; [reflexivity |]. intros q [_ Hq]. inversion Hq; subst. assumption.
    + intros H. inversion H; subst. left. split; [reflexivity |].
      intros q [_ Hq]. discriminate.
    + discriminate.
Qed.

Lemma shorter_trans n m best :
  n < m -> shorter m best = true -> shorter n best = true.
Proof.
  destruct best as [k |]; simpl; [| reflexivity].
  rewrite !Nat.ltb_lt. lia.
Qed.

Lemma shorter_false_lt n m best :
  shorter n best = false -> shorter m best = true -> m < n.
Proof.
  destruct best as [k |]; simpl; [| discriminate].
  rewrite Nat.ltb_lt, Nat.ltb_ge. lia.
Qed.

(** The loop over the pairs: either nothing beats the path it started
    with, or it ends with the path of some pair, no longer than the path of
    any pair and strictly shorter than the path of any earlier pair. *)
Lemma pairs_loop_spec g :
  forall ps best best',
    pairs_loop g ps best = Ok best' ->
    (best' = best /\
     forall j pr q, nth_error ps j = Some pr -> yields g pr q ->
                    shorter (length q) (snd best) = false) \/
    (exists i pr p,
        nth_error ps i = Some pr /\ yields g pr p /\
        best' = (Some p, Some (length p)) /\
        shorter (length p) (snd best) = true /\
        forall j pr' q, nth_error ps j = Some pr' -> yields g pr' q ->
                        length p <= length q /\ (j < i -> length p < length q)).
Proof.
  induction ps as [| [s e] ps IH]; intros best best' H; simpl in H.
  - inversion H; subst. left. split; [reflexivity |].
    intros [| j] pr q Hn; discriminate.
  - destruct (try_pair g s e best) as [b | ex] eqn:Ht; simpl in H; [| discriminate].
    apply try_pair_ok in Ht.
    destruct (IH _ _ H) as [[-> Hrest] | (i & pr & p & Hi & Hy & -> & Hsh & Hmin)];
      destruct Ht as [[-> Hhead] | (p0 & Hy0 & Hsh0 & ->)]; simpl in *.
    + left. split; [reflexivity |].
      intros [| j] pr q Hn Hq; simpl in Hn; [inversion Hn; subst; auto | eauto].
    + right. exists 0, (s, e), p0. split_all; auto.
      intros [| j] pr q Hn Hq; simpl in Hn.
      * inversion Hn; subst. destruct Hy0 as [_ E0], Hq as [_ Eq].
        simpl in *. rewrite E0 in Eq. inversion Eq; subst. split; lia.
      * specialize (Hrest j pr q Hn Hq). apply Nat.ltb_ge in Hrest.
        split; [assumption | lia].
    + right. exists (S i), pr, p. split_all; auto.
      intros [| j] pr' q Hn Hq; simpl in Hn.
      * inversion Hn; subst.
        pose proof (shorter_false_lt _ _ _ (Hhead q Hq) Hsh). split; lia.
      * destruct (Hmin j pr' q Hn Hq). split; [assumption | lia].
    + apply Nat.ltb_lt in Hsh.
      right. exists (S i), pr, p. split_all; auto.
      * eapply shorter_trans; eauto.
      * intros [| j] pr' q Hn Hq; simpl in Hn.
        -- inversion Hn; subst. destruct Hy0 as [_ E0], Hq as [_ Eq].
           simpl in *. rewrite E0 in Eq. inversion Eq; subst. split; lia.
        -- destruct (Hmin j pr' q Hn Hq). split; [assumption | lia].
Qed.

(** The path [find_path] settles on, from nothing. *)
Lemma best_path_spec g starts ends best :
  best_path g starts ends = Ok best ->
  let pairs := candidate_pairs (candidate_ids starts) (candidate_ids ends) in
  (best = None /\ forall j pr q, nth_error pairs j = Some pr -> ~ yields g pr q) \/
  (exists i pr p,
      best = Some p /\ nth_error pairs i = Some pr /\ yields g pr p /\
      forall j pr' q, nth_error pairs j = Some pr' -> yields g pr' q ->
                      length p <= length q /\ (j < i -> length p < length q)).
Proof.
  unfold best_path. fold (candidate_ids starts) (candidate_ids ends).
  rewrite outer_loop_pairs.
  destruct (pairs_loop g _ (None, None)) as [b | ex] eqn:Hl; simpl; [| discriminate].
  intros H. inversion H; subst.
  destruct (pairs_loop_spec _ _ _ _ Hl) as [[-> Hno] | (i & pr & p & Hi & Hy & -> & _ & Hmin)].
  - left. split; [reflexivity |]. intros j pr q Hn Hq.
    specialize (Hno j pr q Hn Hq). discriminate.
  - right. exists i, pr, p. auto.
Qed.

(** ** Ingestion and lookup *)

Lemma find_snoc {A : Type} (f : A -> bool) (l : list A) (x : A) :
  find f (l ++ [x]) =
  match find f l with
  | Some y => Some y
  | None => if f x then Some x else None
  end.
Proof.
  induction l as [| a l IH]; simpl; [reflexivity |].
  now destruct (f a).
Qed.







(** It also fails when the id handed in is already taken: the lookup finds
    the older row. *)
Lemma reused_id_returns_older_unit :
  ~ roundtrip_identical sample_embed kg_ab "other" None 1%float (Some "a") "g" "t1".
Proof.
  intros H. destruct (H _ _ eq_refl) as (u & Hget & Hc & _).
  vm_compute in Hget. inversion Hget; subst. discriminate.
Qed.

(** ** Linking *)



(** C8.  Connecting the same two existing units twice with the same
    arguments succeeds both times and leaves two entries in the relation
    store, one after the other: nothing is de-duplicated. *)
Theorem connect_concepts_twice
    (kg : KnowledgeGraph) (src tgt ty why : string) (us ut : AtomicUnit) :
  get_unit kg src = Some us ->
  get_unit kg tgt = Some ut ->
  let rel := mkRelation src tgt ty why in
  let kg1 := snd (connect_concepts kg src tgt ty why) in
  let kg2 := snd (connect_concepts kg1 src tgt ty why) in
  fst (connect_concepts kg src tgt ty why) = Ok rel /\
  fst (connect_concepts kg1 src tgt ty why) = Ok rel /\
  persistence kg2 = persistence kg ++ [rel; rel] /\
  length (persistence kg2) = 2 + length (persistence kg) /\
  nth_error (persistence kg2) (length (persistence kg)) = Some rel /\
  nth_error (persistence kg2) (S (length (persistence kg))) = Some rel.
Proof.
  intros Hs Ht rel kg1 kg2.
  assert (E1 : connect_concepts kg src tgt ty why
               = (Ok rel, mkKG (table kg)
                               (add_edge (graph kg) src tgt (mkEdge ty why))
                               (persistence kg ++ [rel]))).
  { unfold connect_concepts. now rewrite Hs, Ht. }
  assert (E2 : connect_concepts kg1 src tgt ty why
               = (Ok rel, mkKG (table kg1)
                               (add_edge (graph kg1) src tgt (mkEdge ty why))
                               (persistence kg1 ++ [rel]))).
  { unfold kg1. rewrite E1. unfold connect_concepts, get_unit in *. simpl.
    destruct (find _ (table kg)); [| discriminate].
    destruct (find _ (table kg)); [| discriminate]. reflexivity. }
  assert (E3 : persistence kg2 = persistence kg ++ [rel; rel]).
  { unfold kg2. rewrite E2. unfold kg1. rewrite E1. simpl.
    now rewrite <- app_assoc. }
  split_all.
  - now rewrite E1.
  - now rewrite E2.
  - exact E3.
  - rewrite E3, length_app. simpl. lia.
  - rewrite E3, nth_error_app2, Nat.sub_diag; [reflexivity | lia].
  - rewrite E3, nth_error_app2; [| lia].
    replace (S (length (persistence kg)) - length (persistence kg)) with 1 by lia.
    reflexivity.
Qed.

Lemma connect_concepts_twice_witness :
  let rel := mkRelation "a" "b" "supports" "why" in
  let kg1 := snd (connect_concepts kg_ab "a" "b" "supports" "why") in
  let kg2 := snd (connect_concepts kg1 "a" "b" "supports" "why") in
  fst (connect_concepts kg_ab "a" "b" "supports" "why") = Ok rel /\
  fst (connect_concepts kg1 "a" "b" "supports" "why") = Ok rel /\
  persistence kg2 = persistence kg_ab ++ [rel; rel] /\
  length (persistence kg2) = 2 + length (persistence kg_ab) /\
  nth_error (persistence kg2) (length (persistence kg_ab)) = Some rel /\
  nth_error (persistence kg2) (S (length (persistence kg_ab))) = Some rel.
Proof.
  apply (connect_concepts_twice kg_ab "a" "b" "supports" "why"
           (mkUnit "a" "A" None 1%float []) (mkUnit "b" "B" None 1%float []));
    reflexivity.
Defined.

(** The graph is a [DiGraph]: the second call overwrites the edge of the
    first, so the graph holds one edge where the store holds two relations. *)
Example connect_concepts_twice_one_edge :
  let kg1 := snd (connect_concepts kg_ab "a" "b" "supports" "why") in
  let kg2 := snd (connect_concepts kg1 "a" "b" "supports" "why") in
  length (edges (graph kg2)) = 1 /\ length (persistence kg2) = 2.
Proof. split; reflexivity. Qed.

(** ** Deletion *)

Lemma find_filter_negb {A : Type} (f : A -> bool) (l : list A) :
  find f (filter (fun x => negb (f x)) l) = None.
Proof.
  induction l as [| a l IH]; simpl; [reflexivity |].
  destruct (f a) eqn:Hf; simpl; [assumption | now rewrite Hf].
Qed.

(** The relations [delete_relations_for_unit] keeps are those that do not
    touch the unit. *)
Lemma kept_not_touching (rels : list Relation) (uid : string) :
  fst (delete_relations_for_unit rels uid)
  = filter (fun r => negb (touches uid r)) rels.
Proof.
  unfold delete_relations_for_unit, touches. simpl.
  apply filter_ext. intros r. now rewrite negb_orb.
Qed.

Lemma filter_partition_length {A : Type} (f : A -> bool) (l : list A) :
  length (filter f l) = length l - length (filter (fun x => negb (f x)) l).
Proof.
  assert (H : length (filter f l) + length (filter (fun x => negb (f x)) l)
              = length l).
  { induction l as [| a l IH]; simpl; [reflexivity |].
    destruct (f a); simpl; lia. }
  lia.
Qed.

Lemma delete_unit_ok kg uid report kg' :
  delete_unit kg uid = (Ok report, kg') ->
  exists unit,
    get_unit kg uid = Some unit /\
    report = mkReport uid (content unit) (source_doi unit)
               (snd (delete_relations_for_unit (persistence kg) uid))
               (length (get_unit_connections kg uid)) /\
    table kg' = filter (fun row => negb (String.eqb (row_id row) uid)) (table kg) /\
    graph kg' = (if has_node (graph kg) uid
                 then remove_node (graph kg) uid else graph kg) /\
    persistence kg' = fst (delete_relations_for_unit (persistence kg) uid).
Proof.
  unfold delete_unit. destruct (get_unit kg uid) as [unit |]; [| discriminate].
  destruct (delete_relations_for_unit (persistence kg) uid) as [kept n] eqn:Hd.
  intros H. inversion H; subst. exists unit. simpl. auto.
Qed.

(** C5.  After a successful [delete_unit] the unit is absent from
    [get_unit], no stored relation has its id as source or as target, and the
    relations listed for it are none. *)
Theorem delete_unit_removes_unit_and_relations
    (kg kg' : KnowledgeGraph) (uid : string) (report : DeletionReport) :
  delete_unit kg uid = (Ok report, kg') ->
  get_unit kg' uid = None /\
  (forall r, In r (persistence kg') -> source_id r <> uid /\ target_id r <> uid) /\
  get_relations_for_unit (persistence kg') uid = [] /\
  get_unit_connections kg' uid = [].
Proof.
  intros H. apply delete_unit_ok in H.
  destruct H as (unit & _ & _ & Ht & _ & Hp).
  assert (Hnone : forall r, In r (persistence kg') -> touches uid r = false).
  { intros r Hr. rewrite Hp, kept_not_touching in Hr.
    apply filter_In in Hr. destruct Hr as [_ Hr]. now apply negb_true_iff. }
  assert (Hempty : get_relations_for_unit (persistence kg') uid = []).
  { unfold get_relations_for_unit.
    destruct (filter (touches uid) (persistence kg')) as [| r l] eqn:Hf;
      [reflexivity |].
    assert (Hin : In r (filter (touches uid) (persistence kg')))
      by (rewrite Hf; now left).
    apply filter_In in Hin. destruct Hin as [Hin Ht'].
    rewrite (Hnone r Hin) in Ht'. discriminate. }
  split_all.
  - unfold get_unit. rewrite Ht.
    now rewrite (find_filter_negb (fun row => String.eqb (row_id row) uid)).
  - intros r Hr. specialize (Hnone r Hr). unfold touches in Hnone.
    apply orb_false_iff in Hnone. destruct Hnone as [Hs Hg].
    now apply String.eqb_neq in Hs, Hg.
  - exact Hempty.
  - exact Hempty.
Qed.

Lemma delete_unit_removes_unit_and_relations_witness :
  let kg' := snd (delete_unit kg_linked "a") in
  get_unit kg' "a" = None /\
  (forall r, In r (persistence kg') -> source_id r <> "a" /\ target_id r <> "a") /\
  get_relations_for_unit (persistence kg') "a" = [] /\
  get_unit_connections kg' "a" = [].
Proof.
  apply (delete_unit_removes_unit_and_relations kg_linked
           (snd (delete_unit kg_linked "a")) "a" (mkReport "a" "A" None 1 1)).
  reflexivity.
Defined.

(** C10.  In the report of a successful [delete_unit] the number of
    relations deleted and the number of connections removed agree: both are
    the number of stored relations that had the id as source or target when
    the call was made. *)
Theorem delete_unit_counts_agree
    (kg kg' : KnowledgeGraph) (uid : string) (report : DeletionReport) :
  delete_unit kg uid = (Ok report, kg') ->
  deleted_relations_count report = connections_removed report /\
  connections_removed report
  = length (filter (fun r => String.eqb (source_id r) uid
                             || String.eqb (target_id r) uid) (persistence kg)).
Proof.
  intros H. apply delete_unit_ok in H.
  destruct H as (unit & _ & -> & _). simpl.
  split; [| reflexivity].
  unfold get_unit_connections, get_relations_for_unit.
  rewrite (filter_partition_length (touches uid)).
  pose proof (kept_not_touching (persistence kg) uid) as Hk.
  unfold delete_relations_for_unit in *. simpl in *. now rewrite Hk.
Qed.

Lemma delete_unit_counts_agree_witness :
  let report := mkReport "a" "A" None 1 1 in
  deleted_relations_count report = connections_removed report /\
  connections_removed report
  = length (filter (fun r => String.eqb (source_id r) "a"
                             || String.eqb (target_id r) "a")
                   (persistence kg_linked)).
Proof.
  apply (delete_unit_counts_agree kg_linked (snd (delete_unit kg_linked "a")) "a"
           (mkReport "a" "A" None 1 1)).
  reflexivity.
Defined.

(** ** Conflict detection *)

Lemma contradicting_spec (r : Relation) :
  contradicting r = true <-> is_contradiction r.
Proof.
  unfold contradicting, is_contradiction.
  now rewrite orb_true_iff, !String.eqb_eq.
Qed.

Lemma contradicting_false (r : Relation) :
  contradicting r = false <-> ~ is_contradiction r.
Proof.
  rewrite <- contradicting_spec. destruct (contradicting r); split; congruence.
Qed.

(** The scan of the relations of one candidate appends at most one result:
    for the first relation that states a conflict, or else for a score above
    0.85. *)
Lemma scan_relations_spec fmt unit score :
  forall rels conflicts,
    exists out,
      scan_relations fmt unit score rels conflicts = conflicts ++ out /\
      ((exists before rel after,
           rels = before ++ rel :: after /\
           Forall (fun r => ~ is_contradiction r) before /\
           is_contradiction rel /\
           out = [mkConflict unit (Some rel)
                    ("This unit has a '" ++ rel_type rel ++ "' relationship: "
                       ++ reasoning rel)]) \/
       (Forall (fun r => ~ is_contradiction r) rels /\
        PrimFloat.ltb 0.85%float score = true /\
        out = [mkConflict unit None
                 ("Highly similar (score: " ++ fmt score
                    ++ ") but potentially conflicting content")]) \/
       (Forall (fun r => ~ is_contradiction r) rels /\
        PrimFloat.ltb 0.85%float score = false /\ out = [])).
Proof.
  induction rels as [| rel rels IH]; intros conflicts; simpl.
  - destruct (PrimFloat.ltb 0.85%float score) eqn:Hhi.
    + eexists. split; [reflexivity |]. right; left. auto.
    + exists []. split; [now rewrite app_nil_r |]. right; right. auto.
  - destruct (contradicting rel) eqn:Hc.
    + eexists. split; [reflexivity |]. left.
      exists [], rel, rels. split_all; auto. now apply contradicting_spec.
    + apply contradicting_false in Hc.
      destruct (IH conflicts) as (out & Heq & Hout).
      exists out. split; [assumption |].
      destruct Hout as [(before & r & after & -> & Hb & Hr & ->) | [(Hall & Hhi & ->) | (Hall & Hhi & ->)]].
      * left. exists (rel :: before), r, after. split_all; auto.
      * right; left. auto.
      * right; right. auto.
Qed.

Lemma check_candidate_spec fmt kg conflicts cand :
  exists out,
    check_candidate fmt kg conflicts cand = conflicts ++ out /\
    emission fmt kg cand out.
Proof.
  destruct cand as [unit score]. unfold check_candidate.
  destruct (PrimFloat.ltb score 0.5%float) eqn:Hlo.
  - exists []. split; [now rewrite app_nil_r | now constructor].
  - destruct (scan_relations_spec fmt unit score
                (get_relations_for_unit (persistence kg) (unit_id unit)) conflicts)
      as (out & Heq & Hout).
    exists out. split; [assumption |].
    destruct Hout as [(before & r & after & Hrels & Hb & Hr & ->) | [(Hall & Hhi & ->) | (Hall & Hhi & ->)]].
    + eapply emit_relation; eauto.
    + now apply emit_similar.
    + now apply emit_nothing.
Qed.

Lemma check_candidates_spec fmt kg :
  forall similar conflicts,
    exists emitted,
      fold_left (check_candidate fmt kg) similar conflicts
      = conflicts ++ concat emitted /\
      Forall2 (emission fmt kg) similar emitted.
Proof.
  induction similar as [| cand similar IH]; intros conflicts; simpl.
  - exists []. split; [now rewrite app_nil_r | constructor].
  - destruct (check_candidate_spec fmt kg conflicts cand) as (out & -> & Hout).
    destruct (IH (conflicts ++ out)) as (emitted & -> & Hall).
    exists (out :: emitted). split; [| now constructor].
    simpl. now rewrite app_assoc.
Qed.

Lemma emission_at_most_one fmt kg cand out :
  emission fmt kg cand out -> length out <= 1.
Proof. destruct 1; simpl; lia. Qed.

(** C7.  The results of [get_conflicts] are, candidate by candidate in the
    order of the limit-10 search, what [emission] prescribes: at most one
    result per candidate; none below 0.5; else the first refuting or
    contradicting relation touching the unit; else, only above 0.85, a result
    without relation whose explanation carries the formatted score. *)
Theorem get_conflicts_per_candidate
    (embed : string -> option (list float))
    (vector_search : list Row -> list float -> nat -> list (Row * option float))
    (format_score : float -> string)
    (kg : KnowledgeGraph) (claim : string) (conflicts : list ConflictResult) :
  get_conflicts embed vector_search format_score kg claim = Ok conflicts ->
  exists similar emitted,
    semantic_search embed vector_search kg claim 10 = Ok similar /\
    Forall2 (emission format_score kg) similar emitted /\
    conflicts = concat emitted /\
    Forall (fun out => length out <= 1) emitted.
Proof.
  unfold get_conflicts.
  destruct (semantic_search embed vector_search kg claim 10) as [similar | e];
    simpl; [| discriminate].
  intros H. inversion H; subst; clear H.
  destruct (check_candidates_spec format_score kg similar []) as (emitted & Heq & Hall).
  exists similar, emitted. split_all; auto.
  clear Heq. induction Hall; constructor; eauto using emission_at_most_one.
Qed.

Lemma get_conflicts_per_candidate_witness :
  exists similar emitted,
    semantic_search sample_embed sample_search kg_refuted "claim" 10 = Ok similar /\
    Forall2 (emission sample_format kg_refuted) similar emitted /\
    [mkConflict (mkUnit "a" "A" None 1%float []) None
       "Highly similar (score: 1.00) but potentially conflicting content";
     mkConflict (mkUnit "b" "B" None 1%float [])
       (Some (mkRelation "c" "b" "refutes" "why"))
       "This unit has a 'refutes' relationship: why";
     mkConflict (mkUnit "c" "C" None 1%float [])
       (Some (mkRelation "c" "b" "refutes" "why"))
       "This unit has a 'refutes' relationship: why"] = concat emitted /\
    Forall (fun out => length out <= 1) emitted.
Proof.
  apply (get_conflicts_per_candidate sample_embed sample_search sample_format
           kg_refuted "claim").
  reflexivity.
Defined.

(** ** Lineage: the steps built from the winning path *)

Lemma find_path_ok embed vs kg sc ec steps :
  find_path embed vs kg sc ec = Ok steps ->
  exists starts ends best,
    semantic_search embed vs kg sc 3 = Ok starts /\
    semantic_search embed vs kg ec 3 = Ok ends /\
    best_path (graph kg) starts ends = Ok best /\
    match best with
    | Some (n :: path) => steps = build_steps kg (n :: path)
    | _ => exists s0 e0,
             hd_error starts = Some s0 /\ hd_error ends = Some e0 /\
             steps = [mkStep (fst s0) None; mkStep (fst e0) None]
    end.
Proof.
  unfold find_path.
  destruct (semantic_search embed vs kg sc 3) as [starts | ex]; simpl; [| discriminate].
  destruct starts as [| s0 ss]; [discriminate |].
  destruct (semantic_search embed vs kg ec 3) as [ends | ex]; simpl; [| discriminate].
  destruct ends as [| e0 es]; [discriminate |].
  destruct (best_path (graph kg) (s0 :: ss) (e0 :: es)) as [best | ex] eqn:Hb;
    simpl; [| discriminate].
  intros H. exists (s0 :: ss), (e0 :: es), best.
  split; [reflexivity |]. split; [reflexivity |]. split; [exact Hb |].
  destruct best as [[| n path] |]; inversion H; subst.
  - exists s0, e0. auto.
  - reflexivity.
  - exists s0, e0. auto.
Qed.






(** With the row of ["b"] gone, the path ["a"; "b"; "c"] gives two steps,
    for two units that no edge joins. *)
Example find_path_gap :
  find_path sample_embed sample_search kg_gap "A" "C"
  = Ok [mkStep (mkUnit "a" "A" None 1%float [])
               (Some (mkRelation "a" "b" "implies" "ab"));
        mkStep (mkUnit "c" "C" None 1%float []) None] /\
  shortest_path (graph kg_gap) "a" "c" = SpPath ["a"; "b"; "c"] /\
  adjacent (graph kg_gap) "a" "c" = false.
Proof. split_all; reflexivity. Qed.

(** ** Lineage: the direction of the relations reported *)







(** ** Lineage: the choice among the candidate pairs *)

(** When the loop over the pairs comes to an end, the search raised for
    none of the pairs it tried. *)
Lemma pairs_loop_no_raise g :
  forall ps best best',
    pairs_loop g ps best = Ok best' ->
    forall j pr n,
      nth_error ps j = Some pr -> fst pr <> snd pr ->
      shortest_path g (fst pr) (snd pr) <> SpNodeNotFound n.
Proof.
  induction ps as [| pr0 ps IH]; intros best best' H j pr n Hn Hne Hsp.
  - now destruct j.
  - simpl in H.
    destruct (try_pair g (fst pr0) (snd pr0) best) as [b | ex] eqn:Ht;
      simpl in H; [| discriminate].
    destruct j as [| j]; simpl in Hn.
    + inversion Hn; subst. unfold try_pair in Ht.
      destruct (String.eqb_spec (fst pr) (snd pr)); [contradiction |].
      rewrite Hsp in Ht. discriminate.
    + eapply IH; eauto.
Qed.

(** For a pair the loop went through, the search returns a path no longer
    than any given path between the two candidates. *)
Lemma tried_pair_yields g ps best best' j pr q :
  pairs_loop g ps best = Ok best' ->
  nth_error ps j = Some pr ->
  fst pr <> snd pr ->
  is_path g (fst pr) (snd pr) q = true ->
  exists q0, yields g pr q0 /\ length q0 <= length q.
Proof.
  intros Hl Hn Hne Hq.
  pose proof (pairs_loop_no_raise _ _ _ _ Hl j pr) as Hnr.
  pose proof (shortest_path_spec g (fst pr) (snd pr)) as Hs.
  destruct (shortest_path g (fst pr) (snd pr)) as [q0 | | n] eqn:Hsp.
  - destruct Hs as (_ & _ & _ & Hmin). exists q0. split; [split; auto | auto].
  - destruct Hs as (_ & _ & Hnone). rewrite Hnone in Hq. discriminate.
  - exfalso. eapply Hnr; eauto.
Qed.

(** C1.  When [find_path] returns, either its steps are built from the path
    the search found for one pair of distinct candidates, a shortest path of
    the undirected view between the two, no longer than any path between the
    candidates of any pair and strictly shorter than any path between the
    candidates of a pair visited earlier; or no pair of distinct candidates is
    joined by a path and the two-step result is returned.  Pairs are visited
    in the order of [candidate_pairs]. *)
Theorem find_path_first_shortest
    (embed : string -> option (list float))
    (vector_search : list Row -> list float -> nat -> list (Row * option float))
    (kg : KnowledgeGraph) (start_concept end_concept : string)
    (steps : list LineageStep) :
  find_path embed vector_search kg start_concept end_concept = Ok steps ->
  exists starts ends,
    semantic_search embed vector_search kg start_concept 3 = Ok starts /\
    semantic_search embed vector_search kg end_concept 3 = Ok ends /\
    let pairs := candidate_pairs (candidate_ids starts) (candidate_ids ends) in
    ((exists i s e path,
         nth_error pairs i = Some (s, e) /\
         s <> e /\
         shortest_path (graph kg) s e = SpPath path /\
         is_path (graph kg) s e path = true /\
         (forall q, is_path (graph kg) s e q = true -> length path <= length q) /\
         steps = build_steps kg path /\
         forall j s' e' q,
           nth_error pairs j = Some (s', e') -> s' <> e' ->
           is_path (graph kg) s' e' q = true ->
           length path <= length q /\ (j < i -> length path < length q))
     \/
     ((forall j s' e' q,
          nth_error pairs j = Some (s', e') -> s' <> e' ->
          is_path (graph kg) s' e' q = false) /\
      exists s0 e0,
        hd_error starts = Some s0 /\ hd_error ends = Some e0 /\
        steps = [mkStep (fst s0) None; mkStep (fst e0) None])).
Proof.
  intros H.
  destruct (find_path_ok _ _ _ _ _ _ H) as (starts & ends & best & Hs & He & Hb & Hsteps).
  exists starts, ends. split; [assumption |]. split; [assumption |].
  intros pairs.
  assert (Hloop : exists b, pairs_loop (graph kg) pairs (None, None) = Ok b).
  { unfold best_path in Hb. fold (candidate_ids starts) (candidate_ids ends) in Hb.
    rewrite outer_loop_pairs in Hb. fold pairs in Hb.
    destruct (pairs_loop (graph kg) pairs (None, None)) as [b | ex];
      [eauto | discriminate]. }
  destruct Hloop as [b Hloop].
  destruct (best_path_spec _ _ _ _ Hb)
    as [[-> Hno] | (i & [s e] & p & -> & Hi & Hy & Hmin)].
  - right. split; [| assumption].
    intros j s' e' q Hj Hne.
    destruct (is_path (graph kg) s' e' q) eqn:Hq; [| reflexivity].
    destruct (tried_pair_yields _ _ _ _ j (s', e') q Hloop Hj Hne Hq) as (q0 & Hy & _).
    exfalso. eapply Hno; eauto.
  - left. destruct Hy as [Hne Hsp]. simpl in Hne, Hsp.
    pose proof (shortest_path_spec (graph kg) s e) as Hspec. rewrite Hsp in Hspec.
    destruct Hspec as (_ & _ & Hpath & Hshort).
    exists i, s, e, p. split_all; auto.
    + destruct p as [| n p]; [discriminate | assumption].
    + intros j s' e' q Hj Hne' Hq.
      destruct (tried_pair_yields _ _ _ _ j (s', e') q Hloop Hj Hne' Hq)
        as (q0 & Hy0 & Hle).
      destruct (Hmin j (s', e') q0 Hj Hy0) as [H1 H2].
      split; [lia |]. intros Hlt. specialize (H2 Hlt). lia.
Qed.

Lemma find_path_first_shortest_witness :
  exists starts ends,
    semantic_search sample_embed sample_search kg_gap "A" 3 = Ok starts /\
    semantic_search sample_embed sample_search kg_gap "C" 3 = Ok ends /\
    let pairs := candidate_pairs (candidate_ids starts) (candidate_ids ends) in
    let steps := [mkStep (mkUnit "a" "A" None 1%float [])
                         (Some (mkRelation "a" "b" "implies" "ab"));
                  mkStep (mkUnit "c" "C" None 1%float []) None] in
    ((exists i s e path,
         nth_error pairs i = Some (s, e) /\
         s <> e /\
         shortest_path (graph kg_gap) s e = SpPath path /\
         is_path (graph kg_gap) s e path = true /\
         (forall q, is_path (graph kg_gap) s e q = true -> length path <= length q) /\
         steps = build_steps kg_gap path /\
         forall j s' e' q,
           nth_error pairs j = Some (s', e') -> s' <> e' ->
           is_path (graph kg_gap) s' e' q = true ->
           length path <= length q /\ (j < i -> length path < length q))
     \/
     ((forall j s' e' q,
          nth_error pairs j = Some (s', e') -> s' <> e' ->
          is_path (graph kg_gap) s' e' q = false) /\
      exists s0 e0,
        hd_error starts = Some s0 /\ hd_error ends = Some e0 /\
        steps = [mkStep (fst s0) None; mkStep (fst e0) None])).
Proof.
  apply (find_path_first_shortest sample_embed sample_search kg_gap "A" "C").
  reflexivity.
Defined.

(** The pair ["a"], ["b"] comes first and yields a path of three nodes; the
    later pair ["b"], ["c"] yields one of two nodes and wins. *)
Example find_path_later_pair_wins :
  shortest_path (graph kg_chain) "a" "b" = SpPath ["a"; "x"; "b"] /\
  best_path (graph kg_chain)
    [(mkUnit "a" "A" None 1%float [], 1%float);
     (mkUnit "b" "B" None 1%float [], 1%float);
     (mkUnit "c" "C" None 1%float [], 1%float)]
    [(mkUnit "a" "A" None 1%float [], 1%float);
     (mkUnit "b" "B" None 1%float [], 1%float);
     (mkUnit "c" "C" None 1%float [], 1%float)]
  = Ok (Some ["b"; "c"]) /\
  find_path sample_embed sample_search kg_chain "A" "C"
  = Ok [mkStep (mkUnit "b" "B" None 1%float [])
               (Some (mkRelation "b" "c" "extends" "bc"));
        mkStep (mkUnit "c" "C" None 1%float []) None].
Proof. split_all; reflexivity. Qed.

(** ** Lineage: candidates that no path joins *)

(** When every candidate is a node of the graph and no path joins two
    distinct candidates, the loops leave [best_path] empty. *)
Lemma pairs_loop_disconnected g :
  forall ps best,
    (forall s e, In (s, e) ps -> s <> e ->
                 has_node g s = true /\ has_node g e = true /\
                 forall q, is_path g s e q = false) ->
    pairs_loop g ps best = Ok best.
Proof.
  induction ps as [| [s e] ps IH]; intros best Hall; simpl; [reflexivity |].
  assert (Ht : try_pair g s e best = Ok best).
  { unfold try_pair. destruct (String.eqb_spec s e) as [| Hne]; [reflexivity |].
    destruct (Hall s e (or_introl eq_refl) Hne) as (Hs & He & Hno).
    pose proof (shortest_path_spec g s e) as Hsp.
    destruct (shortest_path g s e) as [p | | n]; [| reflexivity |].
    - destruct Hsp as (_ & _ & Hp & _). rewrite Hno in Hp. discriminate.
    - destruct Hsp as [Hn [-> | ->]]; congruence. }
  rewrite Ht. simpl. apply IH. intros s' e' Hin. apply Hall. now right.
Qed.

(** The two-step result for disconnected concepts, when every candidate is
    a node of the graph. *)
Lemma find_path_disconnected embed vs kg sc ec s0 ss e0 es :
  semantic_search embed vs kg sc 3 = Ok (s0 :: ss) ->
  semantic_search embed vs kg ec 3 = Ok (e0 :: es) ->
  (forall s e,
      In s (candidate_ids (s0 :: ss)) -> In e (candidate_ids (e0 :: es)) -> s <> e ->
      has_node (graph kg) s = true /\ has_node (graph kg) e = true /\
      forall q, is_path (graph kg) s e q = false) ->
  find_path embed vs kg sc ec = Ok [mkStep (fst s0) None; mkStep (fst e0) None].
Proof.
  intros Hs He Hall. unfold find_path. rewrite Hs. simpl. rewrite He. simpl.
  unfold best_path.
  fold (candidate_ids (s0 :: ss)) (candidate_ids (e0 :: es)).
  rewrite outer_loop_pairs, pairs_loop_disconnected; [reflexivity |].
  intros s e Hin. apply in_prod_iff in Hin. destruct Hin. now apply Hall.
Qed.

Lemma is_path_no_edges g s e q :
  edges g = [] -> s <> e -> is_path g s e q = false.
Proof.
  intros Hg Hne. unfold is_path.
  destruct q as [| u [| v q]]; [reflexivity | |].
  - simpl. destruct (String.eqb_spec u s) as [-> |]; [| reflexivity].
    destruct (String.eqb_spec s e); [contradiction | reflexivity].
  - assert (Ha : adjacent g u v = false).
    { unfold adjacent, has_edge. now rewrite Hg. }
    cbn [chain]. rewrite Ha. cbn [andb]. now rewrite andb_false_r.
Qed.

(** C6 fails on a data directory that was reopened.  Two units without
    relations are in the vector index; the graph rebuilt from the relation
    store has no node for them.  Both concepts resolve, no path joins two
    distinct candidates, and [find_path] ends with [NodeNotFound] instead of
    the two-step result. *)
Theorem find_path_raises_after_reopen :
  semantic_search sample_embed sample_search (reopen kg_ab) "A" 3
  = Ok [(mkUnit "a" "A" None 1%float [], 1%float);
        (mkUnit "b" "B" None 1%float [], 1%float)] /\
  semantic_search sample_embed sample_search (reopen kg_ab) "B" 3
  = Ok [(mkUnit "a" "A" None 1%float [], 1%float);
        (mkUnit "b" "B" None 1%float [], 1%float)] /\
  graph (reopen kg_ab) = empty_graph /\
  (forall s e q, s <> e -> is_path (graph (reopen kg_ab)) s e q = false) /\
  find_path sample_embed sample_search (reopen kg_ab) "A" "B"
  = Raise (NodeNotFound "a") /\
  find_path sample_embed sample_search kg_ab "A" "B"
  = Ok [mkStep (mkUnit "a" "A" None 1%float []) None;
        mkStep (mkUnit "a" "A" None 1%float []) None].
Proof.
  split_all; try reflexivity.
  intros s e q Hne. now apply is_path_no_edges.
Qed.

(** * Further properties of the code *)

(** ** The relation store *)

Lemma existsb_snoc {A : Type} (f : A -> bool) (l : list A) (x : A) :
  existsb f (l ++ [x]) = existsb f l || f x.
Proof. rewrite existsb_app. simpl. now rewrite orb_false_r. Qed.

(** X1.  [relation_exists] after [add_relation]: the triple of the relation
    just added is found, and every other triple is found exactly when it was
    found before. *)
Theorem relation_exists_add_relation
    (rels : list Relation) (r : Relation) (s t ty : string) :
  relation_exists (add_relation rels r) s t ty
  = relation_exists rels s t ty
    || (String.eqb (source_id r) s && String.eqb (target_id r) t
        && String.eqb (rel_type r) ty) /\
  relation_exists (add_relation rels r) (source_id r) (target_id r) (rel_type r)
  = true.
Proof.
  unfold relation_exists, add_relation. rewrite !existsb_snoc.
  split; [reflexivity |].
  rewrite !String.eqb_refl. apply orb_true_r.
Qed.

Lemma existsb_filter {A : Type} (f p : A -> bool) (l : list A) :
  existsb f (filter p l) = existsb (fun x => p x && f x) l.
Proof.
  induction l as [| a l IH]; simpl; [reflexivity |].
  destruct (p a); simpl; now rewrite IH.
Qed.

(** X2.  [relation_exists] after [delete_relations_for_unit]: no triple with
    the unit as source or target is found any more, and a triple between two
    other units is found exactly when it was found before. *)
Theorem relation_exists_delete_relations_for_unit
    (rels : list Relation) (uid s t ty : string) :
  relation_exists (fst (delete_relations_for_unit rels uid)) s t ty
  = negb (String.eqb s uid) && negb (String.eqb t uid)
    && relation_exists rels s t ty.
Proof.
  unfold relation_exists, delete_relations_for_unit. cbn [fst].
  rewrite existsb_filter.
  induction rels as [| r rels IH]; simpl.
  - now rewrite andb_false_r.
  - rewrite IH. clear IH.
    destruct (String.eqb_spec (source_id r) s) as [<- |];
      destruct (String.eqb_spec (target_id r) t) as [<- |];
      simpl; rewrite ?andb_false_r; simpl; try reflexivity.
    destruct (String.eqb (source_id r) uid), (String.eqb (target_id r) uid),
      (String.eqb (rel_type r) ty); simpl; try reflexivity;
      now rewrite ?andb_false_r.
Qed.

Lemma filter_idem {A : Type} (f : A -> bool) (l : list A) :
  filter f (filter f l) = filter f l.
Proof.
  induction l as [| a l IH]; simpl; [reflexivity |].
  destruct (f a) eqn:Hf; simpl; [now rewrite Hf, IH | assumption].
Qed.

(** X3.  [delete_relations_for_unit] accounts for every relation and is
    idempotent: the relations kept and the count returned add up to the
    relations there were, the relations kept are those touching neither end in
    their old order, and a second call for the same unit deletes nothing. *)
Theorem delete_relations_for_unit_twice (rels : list Relation) (uid : string) :
  let (kept, deleted) := delete_relations_for_unit rels uid in
  length kept + deleted = length rels /\
  kept = filter (fun r => negb (touches uid r)) rels /\
  deleted = length (get_relations_for_unit rels uid) /\
  delete_relations_for_unit kept uid = (kept, 0).
Proof.
  pose proof (kept_not_touching rels uid) as Hk.
  unfold delete_relations_for_unit in *. cbn [fst] in Hk.
  set (p := fun r => negb (String.eqb (source_id r) uid)
                     && negb (String.eqb (target_id r) uid)) in *.
  pose proof (filter_length_le p rels) as Hle.
  split_all.
  - lia.
  - exact Hk.
  - unfold get_relations_for_unit.
    rewrite (filter_partition_length (touches uid)), <- Hk. reflexivity.
  - rewrite filter_idem, Nat.sub_diag. reflexivity.
Qed.

(** ** The idempotency cache *)

Lemma dict_get_set {V : Type} (d : list (string * V)) (key key' : string) (v : V) :
  dict_get (dict_set d key v) key'
  = if String.eqb key key' then Some v else dict_get d key'.
Proof.
  induction d as [| [k v0] d IH]; simpl.
  - reflexivity.
  - destruct (String.eqb_spec k key) as [-> | Hne]; simpl.
    + destruct (String.eqb_spec key key'); reflexivity.
    + rewrite IH. destruct (String.eqb_spec k key') as [-> | Hne'];
        [| reflexivity].
      destruct (String.eqb_spec key key'); [congruence | reflexivity].
Qed.

(** X4.  A result stored under a key is what [check_idempotency] returns for
    that key, whatever was stored under it before, and the answer for every
    other key is unchanged. *)
Theorem check_after_store_idempotency {V : Type}
    (cache : list (string * V)) (key : string) (result : V) :
  check_idempotency (store_idempotency cache key result) key = Some result /\
  forall key', key' <> key ->
               check_idempotency (store_idempotency cache key result) key'
               = check_idempotency cache key'.
Proof.
  unfold check_idempotency, store_idempotency. split.
  - now rewrite dict_get_set, String.eqb_refl.
  - intros key' Hne. rewrite dict_get_set.
    destruct (String.eqb_spec key key'); [congruence | reflexivity].
Qed.

Lemma dict_set_length {V : Type} (d : list (string * V)) (key : string) (v : V) :
  length (dict_set d key v)
  = length d + (match dict_get d key with Some _ => 0 | None => 1 end).
Proof.
  induction d as [| [k v0] d IH]; simpl; [reflexivity |].
  destruct (String.eqb k key); simpl; [lia | rewrite IH; lia].
Qed.

(** X5.  The count [clear_idempotency_cache] returns goes up by one when a
    result is stored under a key that has none, stays the same when a key is
    overwritten, and after the clearing no key has a result. *)
Theorem clear_idempotency_cache_count {V : Type}
    (cache : list (string * V)) (key : string) (result : V) :
  snd (clear_idempotency_cache (store_idempotency cache key result))
  = snd (clear_idempotency_cache cache)
    + (match check_idempotency cache key with Some _ => 0 | None => 1 end) /\
  forall key', check_idempotency (fst (clear_idempotency_cache cache)) key' = None.
Proof.
  unfold clear_idempotency_cache, store_idempotency, check_idempotency.
  cbn [fst snd]. split; [apply dict_set_length | reflexivity].
Qed.

(** ** What is in memory is what is on disk *)

Lemma filter_all_kept {A : Type} (f : A -> bool) (l : list A) :
  length l - length (filter f l) = 0 -> filter f l = l.
Proof.
  induction l as [| a l IH]; [reflexivity |].
  pose proof (filter_length_le f l) as Hle.
  cbn [filter length]. destruct (f a); cbn [length]; intros H.
  - f_equal. apply IH. lia.
  - lia.
Qed.

Lemma pm_run_in_sync {V : Type} (pm : PersistenceManager V) (c : pm_call V) :
  pm_open (relations_file pm) (idempotency_file pm) = pm ->
  pm_open (relations_file (pm_run pm c)) (idempotency_file (pm_run pm c))
  = pm_run pm c.
Proof.
  destruct pm as [rels cache rf cf]. unfold pm_open.
  cbn [relations_file idempotency_file].
  intros H. inversion H as [[Hr Hc]]. clear H.
  destruct c as [r | uid | key result |].
  - reflexivity.
  - unfold pm_run, pm_delete_relations_for_unit, delete_relations_for_unit.
    cbn [fst snd pm_relations pm_idempotency_cache relations_file idempotency_file].
    set (kept := filter _ _).
    destruct (Nat.ltb_spec 0 (length (match rf with Some l => l | None => [] end)
                              - length kept)) as [Hlt | Hge].
    + reflexivity.
    + assert (Hsame : kept = match rf with Some l => l | None => [] end).
      { unfold kept in *. apply filter_all_kept. lia. }
      now rewrite Hsame.
  - reflexivity.
  - reflexivity.
Qed.

(** X6.  After any sequence of calls on a manager opened on a data
    directory, a manager opened on the same directory loads exactly the
    relations and the cache held in memory; the file that
    [delete_relations_for_unit] leaves unwritten when it deletes nothing is
    never stale. *)
Theorem persistence_in_sync {V : Type}
    (rf : option (list Relation)) (cf : option (list (string * V)))
    (calls : list (pm_call V)) :
  let pm := fold_left pm_run calls (pm_open rf cf) in
  pm_open (relations_file pm) (idempotency_file pm) = pm.
Proof.
  cbv zeta.
  assert (H0 : pm_open (relations_file (pm_open rf cf))
                       (idempotency_file (pm_open rf cf)) = pm_open rf cf)
    by reflexivity.
  revert H0. generalize (pm_open rf cf).
  induction calls as [| c calls IH]; intros pm H; simpl; [assumption |].
  apply IH. now apply pm_run_in_sync.
Qed.

(** ** The graph operations *)

Lemma find_filter {A : Type} (f p : A -> bool) (l : list A) :
  find f (filter p l) = find (fun x => p x && f x) l.
Proof.
  induction l as [| a l IH]; simpl; [reflexivity |].
  destruct (p a); simpl; [destruct (f a); auto | assumption].
Qed.

Lemma find_all_false {A : Type} (f : A -> bool) (l : list A) :
  (forall x, In x l -> f x = false) -> find f l = None.
Proof.
  induction l as [| a l IH]; simpl; intros H; [reflexivity |].
  rewrite (H a (or_introl eq_refl)). apply IH. auto.
Qed.

Lemma find_ext_in {A : Type} (f g : A -> bool) (l : list A) :
  (forall x, In x l -> f x = g x) -> find f l = find g l.
Proof.
  induction l as [| a l IH]; simpl; intros H; [reflexivity |].
  rewrite (H a (or_introl eq_refl)). destruct (g a); [reflexivity |].
  apply IH. auto.
Qed.

Lemma has_edge_of_edge_data g u v :
  has_edge g u v = match edge_data g u v with Some _ => true | None => false end.
Proof.
  unfold has_edge, edge_data.
  induction (edges g) as [| e es IH]; simpl; [reflexivity |].
  destruct (is_edge u v e); simpl; [reflexivity | assumption].
Qed.

Lemma is_edge_key u v a b d :
  is_edge a b (u, v, d) = String.eqb u a && String.eqb v b.
Proof. reflexivity. Qed.

Lemma is_edge_same_key u v a b e :
  is_edge u v e = true -> is_edge a b e = String.eqb u a && String.eqb v b.
Proof.
  unfold is_edge. intros H. apply andb_true_iff in H. destruct H as [Hu Hv].
  apply String.eqb_eq in Hu, Hv. now subst.
Qed.

Lemma is_edge_other_key u v a b e :
  is_edge u v e = false -> String.eqb u a && String.eqb v b = true ->
  is_edge a b e = false.
Proof.
  intros H Hk. apply andb_true_iff in Hk. destruct Hk as [Hu Hv].
  apply String.eqb_eq in Hu, Hv. now subst.
Qed.

Lemma edge_data_replace es u v d a b :
  option_map snd
    (find (is_edge a b)
          (map (fun e : string * string * EdgeData =>
                  if is_edge u v e then (u, v, d) else e) es))
  = if String.eqb u a && String.eqb v b
    then (if existsb (is_edge u v) es then Some d else None)
    else option_map snd (find (is_edge a b) es).
Proof.
  induction es as [| e es IH]; cbn [map find existsb].
  - now destruct (String.eqb u a && String.eqb v b).
  - destruct (is_edge u v e) eqn:Hk; cbn [orb].
    + rewrite is_edge_key, (is_edge_same_key _ _ a b _ Hk).
      destruct (String.eqb u a && String.eqb v b) eqn:Hab; [reflexivity |].
      exact IH.
    + destruct (String.eqb u a && String.eqb v b) eqn:Hab.
      * rewrite (is_edge_other_key _ _ _ _ _ Hk Hab). exact IH.
      * destruct (is_edge a b e); [reflexivity | exact IH].
Qed.

(** After [add_edge] the pair just linked carries the new attributes, and
    every other pair carries what it carried. *)
Lemma edge_data_add_edge g u v d a b :
  edge_data (add_edge g u v d) a b
  = if String.eqb u a && String.eqb v b then Some d else edge_data g a b.
Proof.
  unfold add_edge. destruct (has_edge g u v) eqn:He; unfold edge_data; cbn [edges].
  - rewrite edge_data_replace. unfold has_edge in He. now rewrite He.
  - rewrite find_snoc, is_edge_key.
    destruct (String.eqb u a && String.eqb v b) eqn:Hab.
    + apply andb_true_iff in Hab. destruct Hab as [Hu Hv].
      apply String.eqb_eq in Hu, Hv. subst a b.
      unfold has_edge in He.
      rewrite (find_all_false (is_edge u v) (edges g)); [reflexivity |].
      intros x Hx. destruct (is_edge u v x) eqn:Hk; [| reflexivity].
      rewrite <- He. symmetry. apply existsb_exists. eauto.
    + now destruct (find (is_edge a b) (edges g)).
Qed.

Lemma has_node_touch ns n m :
  existsb (fun x => String.eqb (fst x) m) (touch_node ns n)
  = existsb (fun x => String.eqb (fst x) m) ns || String.eqb n m.
Proof.
  unfold touch_node.
  destruct (existsb (fun x => String.eqb (fst x) n) ns) eqn:Hn.
  - destruct (String.eqb_spec n m) as [-> |]; [| now rewrite orb_false_r].
    now rewrite Hn.
  - now rewrite existsb_snoc.
Qed.

Lemma has_node_add_edge g u v d m :
  has_node (add_edge g u v d) m
  = has_node g m || String.eqb u m || String.eqb v m.
Proof.
  unfold add_edge, has_node.
  destruct (has_edge g u v); cbn [nodes]; now rewrite !has_node_touch.
Qed.

Lemma has_node_add_node g n c m :
  has_node (add_node g n c) m = has_node g m || String.eqb n m.
Proof.
  unfold add_node. destruct (has_node g n) eqn:Hn; unfold has_node in *; cbn [nodes].
  - assert (Hmap : existsb (fun x => String.eqb (fst x) m)
                     (map (fun x => if String.eqb (fst x) n then (n, Some c) else x)
                          (nodes g))
                   = existsb (fun x => String.eqb (fst x) m) (nodes g)).
    { clear Hn. induction (nodes g) as [| x ns IH]; simpl; [reflexivity |].
      rewrite IH. f_equal.
      destruct (String.eqb_spec (fst x) n) as [<- |]; reflexivity. }
    rewrite Hmap.
    destruct (String.eqb_spec n m) as [-> |]; [| now rewrite orb_false_r].
    now rewrite Hn.
  - now rewrite existsb_snoc.
Qed.

Lemma edge_data_add_node g n c a b :
  edge_data (add_node g n c) a b = edge_data g a b.
Proof. unfold add_node, edge_data. now destruct (has_node g n). Qed.

Lemma has_node_remove_node g n m :
  has_node (remove_node g n) m = has_node g m && negb (String.eqb m n).
Proof.
  unfold remove_node, has_node. cbn [nodes]. rewrite existsb_filter.
  generalize (nodes g). intros ns.
  induction ns as [| x ns IH]; simpl; [reflexivity |].
  rewrite IH. clear IH.
  destruct (String.eqb_spec (fst x) m) as [-> | Hne].
  - destruct (String.eqb m n), (existsb (fun y => String.eqb (fst y) m) ns);
      reflexivity.
  - destruct (String.eqb (fst x) n); reflexivity.
Qed.

Lemma edge_data_remove_node g n a b :
  edge_data (remove_node g n) a b
  = if String.eqb a n || String.eqb b n then None else edge_data g a b.
Proof.
  unfold remove_node, edge_data. cbn [edges]. rewrite find_filter.
  destruct (String.eqb a n || String.eqb b n) eqn:Hn.
  - rewrite find_all_false; [reflexivity |].
    intros e _. unfold is_edge.
    destruct (String.eqb_spec (fst (fst e)) a) as [-> |]; [| now rewrite andb_false_r].
    destruct (String.eqb_spec (snd (fst e)) b) as [-> |]; [| now rewrite !andb_false_r].
    apply orb_true_iff in Hn.
    destruct Hn as [-> | ->]; simpl; now rewrite ?andb_false_r.
  - f_equal. apply find_ext_in. intros e _. unfold is_edge.
    apply orb_false_iff in Hn. destruct Hn as [Ha Hb].
    destruct (String.eqb_spec (fst (fst e)) a) as [-> |]; [| now rewrite andb_false_r].
    destruct (String.eqb_spec (snd (fst e)) b) as [-> |]; [| now rewrite !andb_false_r].
    now rewrite Ha, Hb.
Qed.

(** ** Rebuilding the graph from the relation store *)

Lemma newest_relation_snoc rels r u v :
  newest_relation (rels ++ [r]) u v
  = if links u v r then Some (mkEdge (rel_type r) (reasoning r))
    else newest_relation rels u v.
Proof.
  unfold newest_relation. rewrite rev_unit. simpl.
  now destruct (links u v r).
Qed.

Lemma load_graph_snoc rels r g :
  load_graph_from_persistence (rels ++ [r]) g
  = add_edge (load_graph_from_persistence rels g) (source_id r) (target_id r)
             (mkEdge (rel_type r) (reasoning r)).
Proof.
  unfold load_graph_from_persistence, get_all_relations.
  now rewrite fold_left_app.
Qed.

Lemma edge_data_load rels g u v :
  edge_data (load_graph_from_persistence rels g) u v
  = match newest_relation rels u v with
    | Some d => Some d
    | None => edge_data g u v
    end.
Proof.
  induction rels as [| r rels IH] using rev_ind; [reflexivity |].
  rewrite load_graph_snoc, edge_data_add_edge, newest_relation_snoc, IH.
  unfold links. now destruct (String.eqb (source_id r) u && String.eqb (target_id r) v).
Qed.

Lemma has_node_load rels g n :
  has_node (load_graph_from_persistence rels g) n
  = has_node g n || existsb (touches n) rels.
Proof.
  induction rels as [| r rels IH] using rev_ind; simpl.
  - now rewrite orb_false_r.
  - rewrite load_graph_snoc, has_node_add_edge, IH, existsb_snoc.
    unfold touches. now rewrite <- !orb_assoc.
Qed.

Lemma newest_relation_some rels u v :
  match newest_relation rels u v with Some _ => true | None => false end
  = existsb (links u v) rels.
Proof.
  induction rels as [| r rels IH] using rev_ind; [reflexivity |].
  rewrite newest_relation_snoc, existsb_snoc.
  destruct (links u v r); [now rewrite orb_true_r | now rewrite orb_false_r].
Qed.

(** X7.  In the graph a restart builds, there is an edge from [u] to [v]
    exactly when the relation store has a relation from [u] to [v], and the
    edge carries the type and the reasoning of the one stored last. *)
Theorem reopen_edges_mirror_store (kg : KnowledgeGraph) (u v : string) :
  has_edge (graph (reopen kg)) u v = existsb (links u v) (persistence kg) /\
  edge_data (graph (reopen kg)) u v = newest_relation (persistence kg) u v.
Proof.
  assert (He : edge_data (graph (reopen kg)) u v
               = newest_relation (persistence kg) u v).
  { unfold reopen. cbn [graph]. rewrite edge_data_load.
    now destruct (newest_relation (persistence kg) u v). }
  split; [| exact He].
  rewrite has_edge_of_edge_data, He. apply newest_relation_some.
Qed.

(** X8.  A restart keeps the table and the relations, and the nodes of the
    rebuilt graph are the units that some stored relation touches: a unit
    without relations is no node any more. *)
Theorem reopen_nodes_are_relation_endpoints (kg : KnowledgeGraph) (n : string) :
  table (reopen kg) = table kg /\
  persistence (reopen kg) = persistence kg /\
  has_node (graph (reopen kg)) n = existsb (touches n) (persistence kg) /\
  (get_unit_connections kg n = [] -> has_node (graph (reopen kg)) n = false).
Proof.
  assert (Hn : has_node (graph (reopen kg)) n = existsb (touches n) (persistence kg)).
  { unfold reopen. cbn [graph]. now rewrite has_node_load. }
  split_all; try reflexivity; [exact Hn |].
  intros Hc. rewrite Hn.
  unfold get_unit_connections, get_relations_for_unit in Hc.
  destruct (existsb (touches n) (persistence kg)) eqn:He; [| reflexivity].
  apply existsb_exists in He. destruct He as (r & Hr & Ht).
  assert (Hin : In r (filter (touches n) (persistence kg)))
    by (apply filter_In; auto).
  rewrite Hc in Hin. destruct Hin.
Qed.

(** ** The three stores stay consistent *)

Lemma indexed_existsb kg x :
  indexed kg x = existsb (fun row => String.eqb (row_id row) x) (table kg).
Proof.
  unfold indexed, get_unit.
  induction (table kg) as [| row rows IH]; simpl; [reflexivity |].
  destruct (String.eqb (row_id row) x); [reflexivity | exact IH].
Qed.



(** The engine after [connect_concepts]. *)
Lemma connect_concepts_state kg s t ty why :
  let kg' := snd (connect_concepts kg s t ty why) in
  kg' = kg \/
  (indexed kg s = true /\ indexed kg t = true /\
   kg' = mkKG (table kg)
              (add_edge (graph kg) s t (mkEdge ty why))
              (persistence kg ++ [mkRelation s t ty why])).
Proof.
  unfold connect_concepts, indexed.
  destruct (get_unit kg s); cbn; [| now left].
  destruct (get_unit kg t); cbn; [| now left].
  right. auto.
Qed.















(** ** Within one session every unit is a node *)





(** ** What the calls change and what they leave alone *)

(** X11.  A successful [add_proposition] shadows nothing and links
    nothing: every unit [get_unit] found before is found unchanged, also under
    the id of the new unit if that id was taken; the relations and the edges
    are what they were; the new unit is a node of the graph. *)
Theorem add_proposition_keeps_existing
    (embed : string -> option (list float)) (kg kg' : KnowledgeGraph)
    (text : string) (src : option string) (conf : float)
    (uid : option string) (gen_id created_at : string) (unit : AtomicUnit) :
  add_proposition embed kg text src conf uid gen_id created_at = (Ok unit, kg') ->
  (forall x u, get_unit kg x = Some u -> get_unit kg' x = Some u) /\
  persistence kg' = persistence kg /\
  (forall a b, edge_data (graph kg') a b = edge_data (graph kg) a b) /\
  (forall n, has_node (graph kg') n
             = has_node (graph kg) n || String.eqb (unit_id unit) n) /\
  indexed kg' (unit_id unit) = true.
Proof.
  unfold add_proposition. destruct (embed text) as [v |]; [| discriminate].
  intros H. inversion H; subst; clear H. cbn [unit_id graph persistence].
  split_all.
  - intros x u. unfold get_unit. cbn [table]. rewrite find_snoc.
    now destruct (find (fun row => String.eqb (row_id row) x) (table kg)).
  - reflexivity.
  - intros a b. apply edge_data_add_node.
  - intros n. apply has_node_add_node.
  - rewrite indexed_existsb. cbn [table]. rewrite existsb_snoc. cbn [row_id].
    rewrite String.eqb_refl. apply orb_true_r.
Qed.

Lemma add_proposition_keeps_existing_witness :
  (forall x u, get_unit kg_linked x = Some u ->
               get_unit (snd (add_proposition sample_embed kg_linked "A2" None
                                1%float (Some "a") "g" "t1")) x = Some u) /\
  persistence (snd (add_proposition sample_embed kg_linked "A2" None
                      1%float (Some "a") "g" "t1")) = persistence kg_linked /\
  (forall a b,
      edge_data (graph (snd (add_proposition sample_embed kg_linked "A2" None
                               1%float (Some "a") "g" "t1"))) a b
      = edge_data (graph kg_linked) a b) /\
  (forall n,
      has_node (graph (snd (add_proposition sample_embed kg_linked "A2" None
                              1%float (Some "a") "g" "t1"))) n
      = has_node (graph kg_linked) n
        || String.eqb (unit_id (mkUnit "a" "A2" None 1%float [])) n) /\
  indexed (snd (add_proposition sample_embed kg_linked "A2" None
                  1%float (Some "a") "g" "t1"))
          (unit_id (mkUnit "a" "A2" None 1%float [])) = true.
Proof.
  apply (add_proposition_keeps_existing sample_embed kg_linked _
           "A2" None 1%float (Some "a") "g" "t1" (mkUnit "a" "A2" None 1%float [])).
  reflexivity.
Defined.






(** X14.  When the deleted unit was a node of the graph, afterwards it is
    no node, no edge leaves or enters it, and the other nodes and the edges
    between them are what they were. *)
Theorem delete_unit_removes_node
    (kg kg' : KnowledgeGraph) (uid : string) (report : DeletionReport) :
  delete_unit kg uid = (Ok report, kg') ->
  has_node (graph kg) uid = true ->
  has_node (graph kg') uid = false /\
  (forall n, n <> uid -> has_node (graph kg') n = has_node (graph kg) n) /\
  (forall v, has_edge (graph kg') uid v = false /\
             has_edge (graph kg') v uid = false) /\
  (forall u v, u <> uid -> v <> uid ->
               edge_data (graph kg') u v = edge_data (graph kg) u v).
Proof.
  intros H Hn. apply delete_unit_ok in H.
  destruct H as (unit & _ & _ & _ & Hg & _). rewrite Hn in Hg. rewrite Hg.
  split_all.
  - rewrite has_node_remove_node, String.eqb_refl. apply andb_false_r.
  - intros n Hne. rewrite has_node_remove_node.
    destruct (String.eqb_spec n uid); [contradiction | apply andb_true_r].
  - intros v. rewrite !has_edge_of_edge_data, !edge_data_remove_node.
    rewrite String.eqb_refl, orb_true_r. auto.
  - intros u v Hu Hv. rewrite edge_data_remove_node.
    destruct (String.eqb_spec u uid); [contradiction |].
    destruct (String.eqb_spec v uid); [contradiction | reflexivity].
Qed.

Lemma delete_unit_removes_node_witness :
  has_node (graph (snd (delete_unit kg_refuted "c"))) "c" = false /\
  (forall n, n <> "c" ->
             has_node (graph (snd (delete_unit kg_refuted "c"))) n
             = has_node (graph kg_refuted) n) /\
  (forall v, has_edge (graph (snd (delete_unit kg_refuted "c"))) "c" v = false /\
             has_edge (graph (snd (delete_unit kg_refuted "c"))) v "c" = false) /\
  (forall u v, u <> "c" -> v <> "c" ->
               edge_data (graph (snd (delete_unit kg_refuted "c"))) u v
               = edge_data (graph kg_refuted) u v).
Proof.
  apply (delete_unit_removes_node kg_refuted (snd (delete_unit kg_refuted "c"))
           "c" (mkReport "c" "C" None 1 1)); reflexivity.
Defined.

(** X15.  A successful [connect_concepts] leaves the units alone, lists the
    new relation last among the connections of its source and of its target
    and nowhere else, and makes the edge from source to target carry the new
    type and reasoning, replacing what an older relation between the two had
    put there; other edges are untouched. *)
Theorem connect_concepts_links_units
    (kg : KnowledgeGraph) (s t ty why : string) (us ut : AtomicUnit) :
  get_unit kg s = Some us ->
  get_unit kg t = Some ut ->
  let rel := mkRelation s t ty why in
  let kg' := snd (connect_concepts kg s t ty why) in
  table kg' = table kg /\
  (forall x, get_unit_connections kg' x
             = get_unit_connections kg x
               ++ (if String.eqb s x || String.eqb t x then [rel] else [])) /\
  (forall a b, edge_data (graph kg') a b
               = if String.eqb s a && String.eqb t b
                 then Some (mkEdge ty why) else edge_data (graph kg) a b) /\
  relation_exists (persistence kg') s t ty = true.
Proof.
  intros Hs Ht rel kg'.
  assert (E : kg' = mkKG (table kg)
                         (add_edge (graph kg) s t (mkEdge ty why))
                         (add_relation (persistence kg) rel)).
  { unfold kg', connect_concepts. now rewrite Hs, Ht. }
  rewrite E. cbn [table graph persistence]. split_all.
  - reflexivity.
  - intros x. unfold get_unit_connections, get_relations_for_unit, add_relation.
    cbn [persistence]. rewrite filter_app. reflexivity.
  - intros a b. apply edge_data_add_edge.
  - unfold relation_exists, add_relation. rewrite existsb_snoc. cbn.
    rewrite !String.eqb_refl. apply orb_true_r.
Qed.

Lemma connect_concepts_links_units_witness :
  let rel := mkRelation "a" "b" "refutes" "again" in
  let kg' := snd (connect_concepts kg_linked "a" "b" "refutes" "again") in
  table kg' = table kg_linked /\
  (forall x, get_unit_connections kg' x
             = get_unit_connections kg_linked x
               ++ (if String.eqb "a" x || String.eqb "b" x then [rel] else [])) /\
  (forall a b, edge_data (graph kg') a b
               = if String.eqb "a" a && String.eqb "b" b
                 then Some (mkEdge "refutes" "again")
                 else edge_data (graph kg_linked) a b) /\
  relation_exists (persistence kg') "a" "b" "refutes" = true.
Proof.
  apply (connect_concepts_links_units kg_linked "a" "b" "refutes" "again"
           (mkUnit "a" "A" None 1%float []) (mkUnit "b" "B" None 1%float []));
    reflexivity.
Defined.

(** ** Listing and searching *)

Lemma in_firstn {A : Type} (n : nat) (l : list A) (x : A) :
  In x (firstn n l) -> In x l.
Proof.
  revert l. induction n as [| n IH]; intros [| a l] H; simpl in *; try contradiction.
  destruct H as [-> | H]; auto.
Qed.



Lemma sample_search_within_table : search_within_table sample_search.
Proof.
  intros rows query limit x Hx. unfold sample_search in Hx.
  apply in_firstn in Hx. apply in_map_iff in Hx.
  destruct Hx as (row & <- & Hrow). exact Hrow.
Defined.


(** ** Conflict detection: what is reported *)

Lemma Forall2_in_right {A B : Type} (R : A -> B -> Prop) (l : list A) (l' : list B) y :
  Forall2 R l l' -> In y l' -> exists x, In x l /\ R x y.
Proof.
  induction 1 as [| x y0 l l' Hr _ IH]; intros Hin; [contradiction |].
  destruct Hin as [<- | Hin].
  - exists x. split; [now left | assumption].
  - destruct (IH Hin) as (x' & Hx' & Hr'). exists x'. split; [now right | assumption].
Qed.

Lemma Forall2_concat_length {A B : Type} (R : A -> list B -> Prop)
    (l : list A) (l' : list (list B)) :
  Forall2 R l l' -> (forall x out, R x out -> length out <= 1) ->
  length (concat l') <= length l.
Proof.
  intros H Hone. induction H as [| x out l l' Hr _ IH]; simpl; [lia |].
  rewrite length_app. specialize (Hone x out Hr). lia.
Qed.

Lemma not_contradicting_touching kg uid :
  Forall (fun r => ~ is_contradiction r) (get_relations_for_unit (persistence kg) uid) ->
  forall r, In r (persistence kg) -> touches uid r = true -> ~ is_contradiction r.
Proof.
  intros Hall r Hr Ht. rewrite Forall_forall in Hall. apply Hall.
  unfold get_relations_for_unit. apply filter_In. auto.
Qed.

(** X18.  [get_conflicts] reports no more results than the search returned
    candidates.  Each result is for a candidate whose score is not below 0.5;
    a relation it carries is stored, has the unit as source or target and is of
    type refutes or contradicts; a result without relation is only for a score
    above 0.85 and a unit that no stored relation of those types touches. *)
Theorem get_conflicts_sound
    (embed : string -> option (list float))
    (vector_search : list Row -> list float -> nat -> list (Row * option float))
    (format_score : float -> string)
    (kg : KnowledgeGraph) (claim : string) (conflicts : list ConflictResult) :
  get_conflicts embed vector_search format_score kg claim = Ok conflicts ->
  exists similar,
    semantic_search embed vector_search kg claim 10 = Ok similar /\
    length conflicts <= length similar /\
    forall c, In c conflicts ->
      exists score,
        In (conflicting_unit c, score) similar /\
        PrimFloat.ltb score 0.5%float = false /\
        match conflict_relation c with
        | Some r =>
            In r (persistence kg) /\
            touches (unit_id (conflicting_unit c)) r = true /\
            is_contradiction r
        | None =>
            PrimFloat.ltb 0.85%float score = true /\
            forall r, In r (persistence kg) ->
                      touches (unit_id (conflicting_unit c)) r = true ->
                      ~ is_contradiction r
        end.
Proof.
  unfold get_conflicts.
  destruct (semantic_search embed vector_search kg claim 10) as [similar | e];
    simpl; [| discriminate].
  intros H. inversion H; subst; clear H.
  destruct (check_candidates_spec format_score kg similar []) as (emitted & -> & Hall).
  exists similar. split; [reflexivity |]. simpl. split.
  - eapply Forall2_concat_length; [exact Hall |].
    intros x out Hx. eapply emission_at_most_one; eauto.
  - intros c Hc. apply in_concat in Hc. destruct Hc as (out & Hout & Hc).
    destruct (Forall2_in_right _ _ _ _ Hall Hout) as (cand & Hcand & Hem).
    destruct Hem as [unit score Hlo
                    | unit score before rel after Hlo Hrels Hb Hr
                    | unit score Hlo Hnone Hhi
                    | unit score Hlo Hnone Hhi]; try contradiction.
    + destruct Hc as [<- | []]. cbn. exists score. split_all; auto.
      * assert (Hin : In rel (get_relations_for_unit (persistence kg) (unit_id unit)))
          by (rewrite Hrels; apply in_elt).
        apply filter_In in Hin. tauto.
      * assert (Hin : In rel (get_relations_for_unit (persistence kg) (unit_id unit)))
          by (rewrite Hrels; apply in_elt).
        apply filter_In in Hin. tauto.
    + destruct Hc as [<- | []]. cbn. exists score. split_all; auto.
      now apply not_contradicting_touching.
Qed.

Lemma get_conflicts_sound_witness :
  exists similar,
    semantic_search sample_embed sample_search kg_refuted "claim" 10 = Ok similar /\
    length [mkConflict (mkUnit "a" "A" None 1%float []) None
              "Highly similar (score: 1.00) but potentially conflicting content";
            mkConflict (mkUnit "b" "B" None 1%float [])
              (Some (mkRelation "c" "b" "refutes" "why"))
              "This unit has a 'refutes' relationship: why";
            mkConflict (mkUnit "c" "C" None 1%float [])
              (Some (mkRelation "c" "b" "refutes" "why"))
              "This unit has a 'refutes' relationship: why"] <= length similar /\
    forall c,
      In c [mkConflict (mkUnit "a" "A" None 1%float []) None
              "Highly similar (score: 1.00) but potentially conflicting content";
            mkConflict (mkUnit "b" "B" None 1%float [])
              (Some (mkRelation "c" "b" "refutes" "why"))
              "This unit has a 'refutes' relationship: why";
            mkConflict (mkUnit "c" "C" None 1%float [])
              (Some (mkRelation "c" "b" "refutes" "why"))
              "This unit has a 'refutes' relationship: why"] ->
      exists score,
        In (conflicting_unit c, score) similar /\
        PrimFloat.ltb score 0.5%float = false /\
        match conflict_relation c with
        | Some r =>
            In r (persistence kg_refuted) /\
            touches (unit_id (conflicting_unit c)) r = true /\
            is_contradiction r
        | None =>
            PrimFloat.ltb 0.85%float score = true /\
            forall r, In r (persistence kg_refuted) ->
                      touches (unit_id (conflicting_unit c)) r = true ->
                      ~ is_contradiction r
        end.
Proof.
  apply (get_conflicts_sound sample_embed sample_search sample_format
           kg_refuted "claim").
  reflexivity.
Defined.

(** ** Lineage: the exceptions *)

Lemma try_pair_raise g s t best e :
  try_pair g s t best = Raise e ->
  exists n, e = NodeNotFound n /\ (n = s \/ n = t) /\ has_node g n = false.
Proof.
  unfold try_pair. destruct (String.eqb s t); [discriminate |].
  pose proof (shortest_path_spec g s t) as Hsp.
  destruct (shortest_path g s t) as [p | | n]; try discriminate.
  - destruct (shorter (length p) (snd best)); discriminate.
  - intros H. inversion H; subst. exists n. destruct Hsp. auto.
Qed.

Lemma pairs_loop_raise g :
  forall ps best e,
    pairs_loop g ps best = Raise e ->
    exists s t n, In (s, t) ps /\ e = NodeNotFound n /\ (n = s \/ n = t) /\
                  has_node g n = false.
Proof.
  induction ps as [| [s t] ps IH]; intros best e H; simpl in H; [discriminate |].
  destruct (try_pair g s t best) as [b | ex] eqn:Ht; simpl in H.
  - destruct (IH _ _ H) as (s' & t' & n & Hin & He & Hn & Hg).
    exists s', t', n. split_all; auto. now right.
  - inversion H; subst. destruct (try_pair_raise _ _ _ _ _ Ht) as (n & He & Hn & Hg).
    exists s, t, n. split_all; auto. now left.
Qed.

(** The loops raise only for a candidate that is not a node of the graph. *)
Lemma best_path_raise g starts ends e :
  best_path g starts ends = Raise e ->
  exists n, e = NodeNotFound n /\
            (In n (candidate_ids starts) \/ In n (candidate_ids ends)) /\
            has_node g n = false.
Proof.
  unfold best_path. fold (candidate_ids starts) (candidate_ids ends).
  rewrite outer_loop_pairs.
  destruct (pairs_loop g _ (None, None)) as [b | ex] eqn:Hl; simpl; [discriminate |].
  intros H. inversion H; subst.
  destruct (pairs_loop_raise _ _ _ _ Hl) as (s & t & n & Hin & He & Hn & Hg).
  apply in_prod_iff in Hin. destruct Hin as [Hs Ht].
  exists n. split_all; auto. destruct Hn as [-> | ->]; auto.
Qed.

(** X19.  The exceptions of [find_path]: the failure of the embedding
    provider for one of the two concepts; the [ValueError] naming the concept
    whose search returned nothing, the start concept first; or [NodeNotFound]
    for a candidate of one of the searches that is not a node of the graph. *)
Theorem find_path_exceptions
    (embed : string -> option (list float))
    (vector_search : list Row -> list float -> nat -> list (Row * option float))
    (kg : KnowledgeGraph) (start_concept end_concept : string) (e : exn) :
  find_path embed vector_search kg start_concept end_concept = Raise e ->
  match e with
  | UpstreamFailure => embed start_concept = None \/ embed end_concept = None
  | ValueError msg =>
      (msg = ("No units found matching: " ++ start_concept)%string /\
       semantic_search embed vector_search kg start_concept 3 = Ok []) \/
      (msg = ("No units found matching: " ++ end_concept)%string /\
       semantic_search embed vector_search kg end_concept 3 = Ok [] /\
       exists starts,
         starts <> [] /\
         semantic_search embed vector_search kg start_concept 3 = Ok starts)
  | NodeNotFound n =>
      exists starts ends,
        semantic_search embed vector_search kg start_concept 3 = Ok starts /\
        semantic_search embed vector_search kg end_concept 3 = Ok ends /\
        (In n (candidate_ids starts) \/ In n (candidate_ids ends)) /\
        has_node (graph kg) n = false
  end.
Proof.
  unfold find_path.
  destruct (semantic_search embed vector_search kg start_concept 3)
    as [starts | ex] eqn:Hs; simpl.
  - destruct starts as [| s0 ss].
    + intros H. inversion H; subst. left. auto.
    + destruct (semantic_search embed vector_search kg end_concept 3)
        as [ends | ex] eqn:He; simpl.
      * destruct ends as [| e0 es].
        -- intros H. inversion H; subst. right. split_all; auto.
           exists (s0 :: ss). split; [discriminate | reflexivity].
        -- destruct (best_path (graph kg) (s0 :: ss) (e0 :: es)) as [b | ex] eqn:Hb;
             simpl.
           ++ destruct b as [[| n p] |]; discriminate.
           ++ intros H. inversion H; subst.
              destruct (best_path_raise _ _ _ _ Hb) as (n & -> & Hin & Hg).
              exists (s0 :: ss), (e0 :: es). auto.
      * intros H. inversion H; subst. unfold semantic_search in He.
        destruct (embed end_concept); [discriminate |].
        inversion He; subst. now right.
  - intros H. inversion H; subst. unfold semantic_search in Hs.
    destruct (embed start_concept); [discriminate |].
    inversion Hs; subst. now left.
Qed.

Lemma find_path_exceptions_witness :
  exists starts ends,
    semantic_search sample_embed sample_search (reopen kg_ab) "A" 3 = Ok starts /\
    semantic_search sample_embed sample_search (reopen kg_ab) "B" 3 = Ok ends /\
    (In "a" (candidate_ids starts) \/ In "a" (candidate_ids ends)) /\
    has_node (graph (reopen kg_ab)) "a" = false.
Proof.
  apply (find_path_exceptions sample_embed sample_search (reopen kg_ab) "A" "B"
           (NodeNotFound "a")).
  reflexivity.
Defined.

Lemma candidate_is_row embed vs kg query limit results n :
  search_within_table vs ->
  semantic_search embed vs kg query limit = Ok results ->
  In n (candidate_ids results) ->
  exists row, In row (table kg) /\ row_id row = n.
Proof.
  intros Hw Hs Hn. unfold semantic_search in Hs.
  destruct (embed query) as [qv |]; [| discriminate].
  inversion Hs; subst; clear Hs. unfold candidate_ids in Hn.
  rewrite map_map in Hn. apply in_map_iff in Hn.
  destruct Hn as (rd & <- & Hrd). exists (fst rd). split; [| reflexivity].
  exact (Hw _ _ _ _ Hrd).
Qed.

(** X20.  When every unit of the vector index is a node of the graph and
    the search of the index returns rows of the table, [find_path] does not
    raise [NodeNotFound]: it returns steps, or fails for a concept without
    match or for the embedding provider. *)
Theorem find_path_no_node_not_found
    (embed : string -> option (list float))
    (vector_search : list Row -> list float -> nat -> list (Row * option float))
    (kg : KnowledgeGraph) (start_concept end_concept : string) :
  units_are_nodes kg ->
  search_within_table vector_search ->
  match find_path embed vector_search kg start_concept end_concept with
  | Ok _ => True
  | Raise (ValueError msg) =>
      msg = ("No units found matching: " ++ start_concept)%string \/
      msg = ("No units found matching: " ++ end_concept)%string
  | Raise UpstreamFailure => True
  | Raise (NodeNotFound _) => False
  end.
Proof.
  intros U Hw. unfold find_path.
  destruct (semantic_search embed vector_search kg start_concept 3)
    as [starts | ex] eqn:Hs; simpl.
  - destruct starts as [| s0 ss]; [now left |].
    destruct (semantic_search embed vector_search kg end_concept 3)
      as [ends | ex] eqn:He; simpl.
    + destruct ends as [| e0 es]; [now right |].
      destruct (best_path (graph kg) (s0 :: ss) (e0 :: es)) as [b | ex] eqn:Hb; simpl.
      * now destruct b as [[| n p] |].
      * destruct (best_path_raise _ _ _ _ Hb) as (n & -> & Hin & Hg).
        assert (Hrow : exists row, In row (table kg) /\ row_id row = n).
        { destruct Hin as [Hin | Hin].
          - exact (candidate_is_row _ _ _ _ _ _ _ Hw Hs Hin).
          - exact (candidate_is_row _ _ _ _ _ _ _ Hw He Hin). }
        destruct Hrow as (row & Hrow & <-).
        rewrite (U row Hrow) in Hg. discriminate.
    + unfold semantic_search in He. destruct (embed end_concept); [discriminate |].
      now inversion He.
  - unfold semantic_search in Hs. destruct (embed start_concept); [discriminate |].
    now inversion Hs.
Qed.

Lemma units_are_nodes_kg_ab : units_are_nodes kg_ab.
Proof.
  intros row [<- | [<- | []]]; reflexivity.
Defined.

Lemma find_path_no_node_not_found_witness :
  match find_path sample_embed sample_search kg_ab "A" "B" with
  | Ok _ => True
  | Raise (ValueError msg) =>
      msg = ("No units found matching: " ++ "A")%string \/
      msg = ("No units found matching: " ++ "B")%string
  | Raise UpstreamFailure => True
  | Raise (NodeNotFound _) => False
  end.
Proof.
  apply (find_path_no_node_not_found sample_embed sample_search kg_ab "A" "B").
  - exact units_are_nodes_kg_ab.
  - exact sample_search_within_table.
Defined.

(** ** Lineage: the steps of a consistent engine *)









(** ** The tools of the server *)






(** X24.  [connect_propositions] stores no relation of a type outside the
    five valid ones: for another type it returns the error response and
    changes nothing, and if every stored relation had a valid type before the
    call, every stored relation has one after it. *)
Theorem connect_propositions_valid_types
    (st st' : Server.state) (id_a id_b relation why : string)
    (idempotency_key : option string) (outcome : result json) :
  Server.connect_propositions st id_a id_b relation why idempotency_key
  = (outcome, st') ->
  (mem relation Server.valid_relations = false ->
   st' = st /\
   exists response, outcome = Ok response /\
                    field response "status" = Some (JStr "error")) /\
  (Forall (fun r => In (rel_type r) Server.valid_relations)
          (persistence (Server.engine st)) ->
   Forall (fun r => In (rel_type r) Server.valid_relations)
          (persistence (Server.engine st'))).
Proof.
  unfold Server.connect_propositions.
  destruct (mem relation Server.valid_relations) eqn:Hvalid; cbn [negb].
  - intros H. split; [discriminate |]. intros Hall.
    destruct (Server.cached_result st idempotency_key) as [cached |].
    + inversion H; subst. exact Hall.
    + pose proof (connect_concepts_state (Server.engine st) id_a id_b relation why)
        as Hstate. cbv zeta in Hstate.
      assert (Hkg : Forall (fun r => In (rel_type r) Server.valid_relations)
                      (persistence
                         (snd (connect_concepts (Server.engine st) id_a id_b
                                 relation why)))).
      { destruct Hstate as [-> | (_ & _ & ->)]; [exact Hall |].
        cbn [persistence]. apply Forall_app. split; [exact Hall |].
        constructor; [| constructor]. cbn [rel_type]. now apply mem_In. }
      destruct (connect_concepts (Server.engine st) id_a id_b relation why)
        as [[rel | [msg | n |]] kg]; cbn [snd] in Hkg;
        inversion H; subst; try exact Hkg.
      unfold Server.cache_result.
      destruct idempotency_key as [key |]; [| exact Hkg].
      destruct (nonempty key); exact Hkg.
  - intros H. inversion H; subst. split; [| auto].
    intros _. split; [reflexivity |]. eexists. split; reflexivity.
Qed.

Lemma connect_propositions_valid_types_witness :
  (mem "causes" Server.valid_relations = false ->
   snd (Server.connect_propositions server_ab "a" "b" "causes" "why" None)
   = server_ab /\
   exists response,
     fst (Server.connect_propositions server_ab "a" "b" "causes" "why" None)
     = Ok response /\
     field response "status" = Some (JStr "error")) /\
  (Forall (fun r => In (rel_type r) Server.valid_relations)
          (persistence (Server.engine server_ab)) ->
   Forall (fun r => In (rel_type r) Server.valid_relations)
          (persistence
             (Server.engine
                (snd (Server.connect_propositions server_ab "a" "b" "causes"
                        "why" None))))).
Proof.
  apply (connect_propositions_valid_types server_ab _ "a" "b" "causes" "why" None).
  reflexivity.
Defined.

Lemma delete_unit_outcome_ok kg uid unit :
  get_unit kg uid = Some unit ->
  exists report kg',
    delete_unit kg uid = (Ok report, kg') /\
    deleted_relations_count report = length (get_unit_connections kg uid) /\
    get_unit kg' uid = None.
Proof.
  intros Hu.
  destruct (delete_unit kg uid) as [[report | e] kg'] eqn:Hd.
  - exists report, kg'. split; [reflexivity |].
    destruct (delete_unit_ok _ _ _ _ Hd) as (unit' & _ & -> & Ht & _).
    split.
    + cbn. unfold get_unit_connections, get_relations_for_unit.
      rewrite (filter_partition_length (touches uid)).
      pose proof (kept_not_touching (persistence kg) uid) as Hk.
      unfold delete_relations_for_unit in *. cbn in *. now rewrite Hk.
    + unfold get_unit. rewrite Ht.
      now rewrite (find_filter_negb (fun row => String.eqb (row_id row) uid)).
  - unfold delete_unit in Hd. rewrite Hu in Hd.
    destruct (delete_relations_for_unit (persistence kg) uid). discriminate.
Qed.

(** X25.  What [delete_unit] announces without confirmation is what it does
    with it: for a unit that exists, the call without confirmation changes
    nothing and reports as [connections_to_delete] the number of connections
    of the unit, and the confirmed call reports the same number as
    [relations_removed] and leaves no unit under the id. *)
Theorem delete_unit_preview_matches
    (st : Server.state) (uid : string) (unit : AtomicUnit) :
  get_unit (Server.engine st) uid = Some unit ->
  exists preview response deleted st',
    Server.delete_unit st uid false = (Ok preview, st) /\
    field preview "status" = Some (JStr "confirmation_required") /\
    field preview "connections_to_delete"
    = Some (JInt (length (get_unit_connections (Server.engine st) uid))) /\
    Server.delete_unit st uid true = (Ok response, st') /\
    field response "status" = Some (JStr "success") /\
    field response "deleted" = Some deleted /\
    field deleted "relations_removed"
    = Some (JInt (length (get_unit_connections (Server.engine st) uid))) /\
    get_unit (Server.engine st') uid = None.
Proof.
  intros Hu. unfold Server.delete_unit. cbn [negb]. rewrite Hu.
  pose proof (delete_unit_outcome_ok (Server.engine st) uid unit Hu)
    as (report & kg' & Hd & Hcount & Hgone).
  rewrite Hd. do 4 eexists. split_all; try reflexivity.
  - cbn. now rewrite Hcount.
  - exact Hgone.
Qed.

Lemma delete_unit_preview_matches_witness :
  exists preview response deleted st',
    Server.delete_unit server_linked "a" false = (Ok preview, server_linked) /\
    field preview "status" = Some (JStr "confirmation_required") /\
    field preview "connections_to_delete"
    = Some (JInt (length (get_unit_connections (Server.engine server_linked) "a"))) /\
    Server.delete_unit server_linked "a" true = (Ok response, st') /\
    field response "status" = Some (JStr "success") /\
    field response "deleted" = Some deleted /\
    field deleted "relations_removed"
    = Some (JInt (length (get_unit_connections (Server.engine server_linked) "a"))) /\
    get_unit (Server.engine st') "a" = None.
Proof.
  apply (delete_unit_preview_matches server_linked "a"
           (mkUnit "a" "A" None 1%float [])).
  reflexivity.
Defined.

(** X26.  When every unit of the vector index is a node of the graph, the
    search of the index returns rows of the table and the embedding provider
    answers for both concepts, [find_scientific_lineage] raises nothing: it
    returns a success response with as many path entries as [path_length]
    says, or the error response for a concept without match. *)
Theorem find_scientific_lineage_answers
    (embed : string -> option (list float))
    (vector_search : list Row -> list float -> nat -> list (Row * option float))
    (st : Server.state) (start_concept end_concept : string) :
  units_are_nodes (Server.engine st) ->
  search_within_table vector_search ->
  embed start_concept <> None ->
  embed end_concept <> None ->
  exists response,
    Server.find_scientific_lineage embed vector_search st start_concept end_concept
    = Ok response /\
    ((field response "status" = Some (JStr "success") /\
      exists entries,
        field response "path" = Some (JList entries) /\
        field response "path_length" = Some (JInt (length entries))) \/
     (field response "status" = Some (JStr "error") /\
      (field response "message"
       = Some (JStr ("No units found matching: " ++ start_concept)) \/
       field response "message"
       = Some (JStr ("No units found matching: " ++ end_concept))))).
Proof.
  intros U Hw Hes Hee.
  unfold Server.find_scientific_lineage, find_path.
  destruct (semantic_search embed vector_search (Server.engine st) start_concept 3)
    as [starts | ex] eqn:Hs; simpl.
  - destruct starts as [| s0 ss].
    + eexists. split; [reflexivity |]. right. cbn. auto.
    + destruct (semantic_search embed vector_search (Server.engine st) end_concept 3)
        as [ends | ex] eqn:He; simpl.
      * destruct ends as [| e0 es].
        -- eexists. split; [reflexivity |]. right. cbn. auto.
        -- destruct (best_path (graph (Server.engine st)) (s0 :: ss) (e0 :: es))
             as [b | ex] eqn:Hb; simpl.
           ++ destruct b as [[| n p] |]; eexists; (split; [reflexivity |]); left;
                cbn; (split; [reflexivity |]); eexists; split; try reflexivity;
                now rewrite length_map.
           ++ exfalso.
              destruct (best_path_raise _ _ _ _ Hb) as (n & -> & Hin & Hg).
              assert (Hrow : exists row, In row (table (Server.engine st))
                                         /\ row_id row = n).
              { destruct Hin as [Hin | Hin].
                - exact (candidate_is_row _ _ _ _ _ _ _ Hw Hs Hin).
                - exact (candidate_is_row _ _ _ _ _ _ _ Hw He Hin). }
              destruct Hrow as (row & Hrow & <-).
              rewrite (U row Hrow) in Hg. discriminate.
      * exfalso. unfold semantic_search in He.
        destruct (embed end_concept); [discriminate | now apply Hee].
  - exfalso. unfold semantic_search in Hs.
    destruct (embed start_concept); [discriminate | now apply Hes].
Qed.

Lemma find_scientific_lineage_answers_witness :
  exists response,
    Server.find_scientific_lineage sample_embed sample_search server_ab "A" "B"
    = Ok response /\
    ((field response "status" = Some (JStr "success") /\
      exists entries,
        field response "path" = Some (JList entries) /\
        field response "path_length" = Some (JInt (length entries))) \/
     (field response "status" = Some (JStr "error") /\
      (field response "message"
       = Some (JStr ("No units found matching: " ++ "A")) \/
       field response "message"
       = Some (JStr ("No units found matching: " ++ "B"))))).
Proof.
  apply (find_scientific_lineage_answers sample_embed sample_search server_ab "A" "B").
  - exact units_are_nodes_kg_ab.
  - exact sample_search_within_table.
  - discriminate.
  - discriminate.
Defined.
